(** * coc-snippets: the [snip] object of python snippets

    A shallow embedding of [python/ultisnips.py]: the classes [IndentUtil]
    and [SnippetUtil], the Python string builtins they call and the part of
    the [vim] binding they talk to.

    Python [str] values are lists of characters, Python [int] values are
    [Z] (unbounded, as in Python), and a call that may raise returns a
    [pyresult]. *)

From Stdlib Require Import ZArith List Ascii String Bool Lia.
Import ListNotations.
Open Scope Z_scope.

(** ** Strings and exceptions *)

Definition str := list ascii.

(** A string literal of the source. *)
Definition lit (s : string) : str := list_ascii_of_string s.

Definition SP : ascii := " "%char.
Definition TAB : ascii := "009"%char.
Definition NL : ascii := "010"%char.
Definition CR : ascii := "013"%char.

Inductive exn : Type :=
| IndexError
| TypeError
| ValueError
| VimError.

Definition exn_eqb (a b : exn) : bool :=
  match a, b with
  | IndexError, IndexError | TypeError, TypeError
  | ValueError, ValueError | VimError, VimError => true
  | _, _ => false
  end.

Inductive pyresult (A : Type) : Type :=
| Ok (a : A)
| Raise (e : exn).

Arguments Ok {A} a.
Arguments Raise {A} e.

Definition bind {A B} (m : pyresult A) (k : A -> pyresult B) : pyresult B :=
  match m with
  | Ok a => k a
  | Raise e => Raise e
  end.

(** [try: m except e: handler] *)
Definition try_except {A} (m : pyresult A) (e : exn) (handler : pyresult A)
  : pyresult A :=
  match m with
  | Ok a => Ok a
  | Raise e' => if exn_eqb e' e then handler else Raise e'
  end.

Notation "x <- m ;; k" := (bind m (fun x => k))
  (at level 61, m at next level, right associativity).

(** ** The Python builtins the module uses *)

Module Py.

Definition len (s : str) : Z := Z.of_nat (List.length s).

(** [s * n] and [n * s]: [n] copies of [s], none when [n <= 0]. *)
Definition str_mul (s : str) (n : Z) : str := List.concat (repeat s (Z.to_nat n)).

(** [s[:stop]]: a negative [stop] counts from the end, and both ends are
    clipped to the string; slicing never raises. *)
Definition slice_to (s : str) (stop : Z) : str :=
  let stop' := if stop <? 0 then Z.max 0 (len s + stop) else Z.min stop (len s) in
  firstn (Z.to_nat stop') s.

(** [s.expandtabs(tabsize)], scanning from column [col]: a tab is replaced
    by the spaces up to the next tab stop (by nothing when
    [tabsize <= 0]); a line break resets the column. *)
Fixpoint expandtabs_from (tabsize col : Z) (s : str) : str :=
  match s with
  | [] => []
  | c :: s' =>
      if Ascii.eqb c TAB then
        if 0 <? tabsize then
          let incr := tabsize - col mod tabsize in
          repeat SP (Z.to_nat incr) ++ expandtabs_from tabsize (col + incr) s'
        else expandtabs_from tabsize col s'
      else
        c :: expandtabs_from tabsize
               (if Ascii.eqb c NL || Ascii.eqb c CR then 0 else col + 1) s'
  end.

Definition expandtabs (s : str) (tabsize : Z) : str := expandtabs_from tabsize 0 s.

(** [s.rstrip(chars)] for a one-character [chars]. *)
Definition rstrip (s : str) (ch : ascii) : str :=
  fold_right
    (fun c acc =>
       match acc with
       | [] => if Ascii.eqb c ch then [] else [c]
       | _ :: _ => c :: acc
       end)
    [] s.

Fixpoint startswith (s prefix : str) {struct prefix} : bool :=
  match prefix, s with
  | [], _ => true
  | _ :: _, [] => false
  | a :: prefix', b :: s' => Ascii.eqb a b && startswith s' prefix'
  end.

(** The scan of [s.replace(old, new)] for a non-empty [old]: occurrences
    are found left to right and do not overlap; [skip] counts the
    characters of the occurrence just replaced that are still to pass. *)
Fixpoint replace_scan (old new : str) (skip : nat) (s : str) : str :=
  match s with
  | [] => []
  | c :: s' =>
      match skip with
      | S k => replace_scan old new k s'
      | O =>
          if startswith s old
          then new ++ replace_scan old new (Nat.pred (List.length old)) s'
          else c :: replace_scan old new 0 s'
      end
  end.

(** [s.replace(old, new)]; an empty [old] matches before every character
    and at the end. *)
Definition replace (s old new : str) : str :=
  match old with
  | [] => new ++ flat_map (fun c => c :: new) s
  | _ :: _ => replace_scan old new 0 s
  end.

(** A Python value as [vim.eval] hands it back: Vim's own binding gives
    strings (numbers included) and lists, Neovim's client gives numbers
    as [int]. *)
#[warnings="-register-all"]
Inductive pyval : Type :=
| PStr (s : str)
| PInt (n : Z)
| PList (l : list pyval)
| PNone.

(** [v == s] for a string [s]: a value of another type is never equal. *)
Definition eq_str (v : pyval) (s : str) : bool :=
  match v with
  | PStr s' => if list_eq_dec ascii_dec s' s then true else false
  | _ => false
  end.

(** Truth value of [v], as [or] tests it. *)
Definition truthy (v : pyval) : bool :=
  match v with
  | PStr [] | PInt 0 | PList [] | PNone => false
  | _ => true
  end.

(** [a or b] *)
Definition or_ (a b : pyval) : pyval := if truthy a then a else b.

(** Whitespace, as [int] strips it (code points below 256). *)
Definition isspace (c : ascii) : bool :=
  let n := nat_of_ascii c in
  ((9 <=? n) && (n <=? 13) || (28 <=? n) && (n <=? 32)
   || (n =? 133) || (n =? 160))%nat.

Fixpoint lstrip_space (s : str) : str :=
  match s with
  | c :: s' => if isspace c then lstrip_space s' else s
  | [] => []
  end.

Definition strip_space (s : str) : str :=
  rev (lstrip_space (rev (lstrip_space s))).

Definition digit_val (c : ascii) : option Z :=
  let n := nat_of_ascii c in
  if ((48 <=? n) && (n <=? 57))%nat then Some (Z.of_nat n - 48) else None.

(** Decimal digits, a single underscore allowed between two digits. *)
Fixpoint digits (acc : Z) (after_digit : bool) (s : str) : option Z :=
  match s with
  | [] => if after_digit then Some acc else None
  | c :: s' =>
      if Ascii.eqb c "_"%char then
        if after_digit then digits acc false s' else None
      else
        match digit_val c with
        | Some d => digits (10 * acc + d) true s'
        | None => None
        end
  end.

(** [int(v)] *)
Definition int (v : pyval) : pyresult Z :=
  match v with
  | PInt n => Ok n
  | PList _ | PNone => Raise TypeError
  | PStr s =>
      let body sign ds :=
        match digits 0 false ds with
        | Some n => Ok (sign * n)
        | None => Raise ValueError
        end in
      match strip_space s with
      | c :: ds =>
          if Ascii.eqb c "-"%char then body (-1) ds
          else if Ascii.eqb c "+"%char then body 1 ds
          else body 1 (c :: ds)
      | [] => Raise ValueError
      end
  end.

End Py.

(** ** The host: the [vim] module

    [answer] is what Vim makes of an expression: its value, or nothing
    when Vim rejects it.  [eval] is [vim.eval], which raises [vim.error]
    ([VimError]) in the second case.  [buf] is the buffer handle. *)

Module Vim.

Record t : Type := mk {
  answer : str -> option Py.pyval;
  buf : Py.pyval
}.

Definition eval (vim : t) (expr : str) : pyresult Py.pyval :=
  match answer vim expr with
  | Some v => Ok v
  | None => Raise VimError
  end.

End Vim.

(** ** IndentUtil *)

Module IndentUtil.

Record t : Type := mk {
  shiftwidth : Z;
  _expandtab : bool;
  _tabstop : Z
}.

Definition reset (vim : Vim.t) : pyresult t :=
  sw <- Vim.eval vim (lit "exists('*shiftwidth') ? shiftwidth() : &shiftwidth") ;;
  shiftwidth <- Py.int sw ;;
  et <- Vim.eval vim (lit "&expandtab") ;;
  ts <- Vim.eval vim (lit "&tabstop") ;;
  _tabstop <- Py.int ts ;;
  Ok (mk shiftwidth (Py.eq_str et (lit "1")) _tabstop).

Definition __init__ (vim : Vim.t) : pyresult t := reset vim.

Definition indent_to_spaces (self : t) (indent : str) : str :=
  let indent := Py.expandtabs indent (_tabstop self) in
  let right := Py.str_mul [SP] (Py.len indent - Py.len (Py.rstrip indent SP)) in
  let indent := Py.replace indent [SP] [] in
  let indent := Py.replace indent [TAB] (Py.str_mul [SP] (_tabstop self)) in
  indent ++ right.

Definition spaces_to_indent (self : t) (indent : str) : str :=
  if negb (_expandtab self)
  then Py.replace indent (Py.str_mul [SP] (_tabstop self)) [TAB]
  else indent.

Definition ntabs_to_proper_indent (self : t) (ntabs : Z) : str :=
  let line_ind := Py.str_mul [SP] (ntabs * shiftwidth self) in
  let line_ind := indent_to_spaces self line_ind in
  let line_ind := spaces_to_indent self line_ind in
  line_ind.

End IndentUtil.


(** ** The named tuples *)

Record _Placeholder : Type := mk_Placeholder {
  current_text : str;
  start : Z;
  end_ : Z
}.

Record _VisualContent : Type := mk_VisualContent {
  mode : str;
  text : str
}.

(** ** SnippetUtil, the [snip] object *)

Module SnippetUtil.

Record t : Type := mk {
  _ind : IndentUtil.t;
  _visual : _VisualContent;
  _initial_indent : str;
  _cur : str;
  _rv : str;
  _changed : bool;
  indent : str;
  _start : Z * Z;
  _end : Z * Z
}.

(** Attribute assignments. *)
Definition set__ind (v : IndentUtil.t) (self : t) : t :=
  mk v (_visual self) (_initial_indent self) (_cur self) (_rv self)
     (_changed self) (indent self) (_start self) (_end self).

Definition set__cur (v : str) (self : t) : t :=
  mk (_ind self) (_visual self) (_initial_indent self) v (_rv self)
     (_changed self) (indent self) (_start self) (_end self).

Definition set__rv (v : str) (self : t) : t :=
  mk (_ind self) (_visual self) (_initial_indent self) (_cur self) v
     (_changed self) (indent self) (_start self) (_end self).

Definition set__changed (v : bool) (self : t) : t :=
  mk (_ind self) (_visual self) (_initial_indent self) (_cur self) (_rv self)
     v (indent self) (_start self) (_end self).

Definition set_indent (v : str) (self : t) : t :=
  mk (_ind self) (_visual self) (_initial_indent self) (_cur self) (_rv self)
     (_changed self) v (_start self) (_end self).

Definition set__start (v : Z * Z) (self : t) : t :=
  mk (_ind self) (_visual self) (_initial_indent self) (_cur self) (_rv self)
     (_changed self) (indent self) v (_end self).

Definition set__end (v : Z * Z) (self : t) : t :=
  mk (_ind self) (_visual self) (_initial_indent self) (_cur self) (_rv self)
     (_changed self) (indent self) (_start self) v.

Definition reset_indent (self : t) : t :=
  set_indent (_initial_indent self) self.

Definition _reset (vim : Vim.t) (self : t) (cur : str) : pyresult t :=
  ind <- IndentUtil.reset vim ;;
  let self := set__ind ind self in
  let self := set__cur cur self in
  let self := set__rv [] self in
  let self := set__changed false self in
  Ok (reset_indent self).

(** The constructor.  The attributes [_reset] assigns, and [_start] and
    [_end], hold a blank until their assignment is reached; nothing reads
    them before. *)
Definition __init__ (vim : Vim.t) (_initial_indent : str) (_vmode : str)
  (vtext : str) (start end_ : Z * Z) : pyresult t :=
  ind <- IndentUtil.__init__ vim ;;
  let self :=
    mk ind (mk_VisualContent (lit "v") vtext) [] [] [] false [] (0, 0) (0, 0) in
  self <- _reset vim self [] ;;
  let self := set__start start self in
  let self := set__end end_ self in
  Ok self.

Definition shift_default_amount : Z := 1.

Definition shift (self : t) (amount : Z) : t :=
  set_indent
    (indent self
     ++ Py.str_mul (Py.str_mul [SP] (IndentUtil.shiftwidth (_ind self))) amount)
    self.

Definition unshift_default_amount : Z := 1.

Definition unshift (self : t) (amount : Z) : pyresult t :=
  let by_ := - IndentUtil.shiftwidth (_ind self) * amount in
  try_except
    (Ok (set_indent (Py.slice_to (indent self) by_) self))
    IndexError
    (Ok (set_indent [] self)).

Definition mkline_default_line : str := [].
Definition mkline_default_indent : str := [].

Definition mkline (self : t) (line : str) (indent : str) : str :=
  indent ++ line.

(** The properties. *)
Definition DQ : ascii := "034"%char.

Definition opt (vim : Vim.t) (self : t) (option : str) (default : Py.pyval)
  : pyresult Py.pyval :=
  e <- Vim.eval vim (lit "exists('" ++ option ++ lit "')") ;;
  if Py.eq_str e (lit "1")
  then try_except (Vim.eval vim option) VimError (Ok default)
  else Ok default.

Definition opt_default_default : Py.pyval := Py.PNone.

Definition fn (vim : Vim.t) (self : t) : pyresult Py.pyval :=
  r <- Vim.eval vim (lit "expand(" ++ [DQ] ++ lit "%:t" ++ [DQ] ++ lit ")") ;;
  Ok (Py.or_ r (Py.PStr [])).

Definition basename (vim : Vim.t) (self : t) : pyresult Py.pyval :=
  r <- Vim.eval vim (lit "expand(" ++ [DQ] ++ lit "%:t:r" ++ [DQ] ++ lit ")") ;;
  Ok (Py.or_ r (Py.PStr [])).

Definition ft (vim : Vim.t) (self : t) : pyresult Py.pyval :=
  opt vim self (lit "&filetype") (Py.PStr []).

Definition rv (self : t) : str := _rv self.

(** [self.rv = value] *)
Definition rv_setter (self : t) (value : str) : t :=
  let self := set__changed true self in
  set__rv value self.

Definition _rv_changed (self : t) : bool := _changed self.

Definition c (self : t) : str := [].

Definition v (self : t) : _VisualContent := _visual self.

Definition p (self : t) : _Placeholder := mk_Placeholder [] 0 0.

Definition context (self : t) : bool := true.

Definition __add__ (self : t) (value : str) : t :=
  let self := rv_setter self (rv self ++ [NL]) in
  let self := rv_setter self (rv self ++ mkline self value mkline_default_indent) in
  self.

Definition __lshift__ (self : t) (other : Z) : pyresult t := unshift self other.

Definition __rshift__ (self : t) (other : Z) : t := shift self other.

Definition snippet_start (self : t) : Z * Z := _start self.

Definition snippet_end (self : t) : Z * Z := _end self.

Definition buffer (vim : Vim.t) (self : t) : Py.pyval := Vim.buf vim.

(** *** One update cycle as a sequence of calls

    What the host and the snippet's python code do to the object, one
    call at a time; the value a call returns is dropped, the object it
    leaves behind is kept.  An exception ends the sequence. *)

Inductive property : Type :=
| P_fn | P_basename | P_ft | P_rv | P__rv_changed | P_c | P_v | P_p
| P_context | P_snippet_start | P_snippet_end | P_buffer.

Inductive call : Type :=
| Reset (vim : Vim.t) (cur : str)
| Shift (amount : Z)
| Unshift (amount : Z)
| Mkline (line indent : str)
| ResetIndent
| Get (vim : Vim.t) (prop : property)
| SetRv (value : str)
| Opt (vim : Vim.t) (option : str) (default : Py.pyval)
| Add (value : str)
| Lshift (other : Z)
| Rshift (other : Z).

Definition get (vim : Vim.t) (prop : property) (self : t) : pyresult t :=
  match prop with
  | P_fn => _ <- fn vim self ;; Ok self
  | P_basename => _ <- basename vim self ;; Ok self
  | P_ft => _ <- ft vim self ;; Ok self
  | _ => Ok self
  end.

Definition step (k : call) (self : t) : pyresult t :=
  match k with
  | Reset vim cur => _reset vim self cur
  | Shift amount => Ok (shift self amount)
  | Unshift amount => unshift self amount
  | Mkline _ _ => Ok self
  | ResetIndent => Ok (reset_indent self)
  | Get vim prop => get vim prop self
  | SetRv value => Ok (rv_setter self value)
  | Opt vim option default => _ <- opt vim self option default ;; Ok self
  | Add value => Ok (__add__ self value)
  | Lshift other => __lshift__ self other
  | Rshift other => Ok (__rshift__ self other)
  end.

Fixpoint run (ks : list call) (self : t) : pyresult t :=
  match ks with
  | [] => Ok self
  | k :: ks' => self' <- step k self ;; run ks' self'
  end.

(** A call that assigns the output, and the host's reset. *)
Definition is_write (k : call) : bool :=
  match k with
  | SetRv _ | Add _ => true
  | _ => false
  end.

Definition is_reset (k : call) : bool :=
  match k with
  | Reset _ _ => true
  | _ => false
  end.

(** The output was written since the last reset: some write has no reset
    after it. *)
Definition written_since_reset (ks : list call) : Prop :=
  exists before w after,
    ks = before ++ w :: after
    /\ is_write w = true
    /\ Forall (fun k => is_reset k = false) after.

End SnippetUtil.

(** A host for the examples: Vim with [shiftwidth=2 tabstop=4
    noexpandtab] and one global variable, [g:snips_author]; nothing else
    is defined, and an expression whose quotes do not balance is an
    error. *)
Definition balanced_quotes (e : str) : bool :=
  Nat.even (List.length (filter (fun ch => Ascii.eqb ch "'"%char) e)).

Definition demo_answer (e : str) : option Py.pyval :=
  let asks (s : string) := Py.eq_str (Py.PStr e) (lit s) in
  if negb (balanced_quotes e) then None
  else if asks "exists('*shiftwidth') ? shiftwidth() : &shiftwidth"%string
  then Some (Py.PStr (lit "2"))
  else if asks "&tabstop"%string then Some (Py.PStr (lit "4"))
  else if asks "exists('g:snips_author')"%string then Some (Py.PStr (lit "1"))
  else if asks "g:snips_author"%string then Some (Py.PStr (lit "me"))
  else Some (Py.PStr (lit "0")).

Definition demo_vim : Vim.t := Vim.mk demo_answer (Py.PList []).

(** ** Specification-side notions *)

(** The column reached after [s], starting in column [col], when a tab
    advances to the next multiple of [tabwidth] and any other character
    advances by one. *)
Fixpoint visual_width_from (tabwidth col : Z) (s : str) : Z :=
  match s with
  | [] => col
  | c :: s' =>
      visual_width_from tabwidth
        (if Ascii.eqb c TAB then (col / tabwidth + 1) * tabwidth else col + 1)
        s'
  end.

Definition visual_width (tabwidth : Z) (s : str) : Z :=
  visual_width_from tabwidth 0 s.

Definition only_spaces_and_tabs (s : str) : Prop :=
  Forall (fun c => c = SP \/ c = TAB) s.

Definition only_spaces (s : str) : Prop := Forall (fun c => c = SP) s.

(** The normalization callers apply: expand, then collapse. *)
Definition normalize (iu : IndentUtil.t) (x : str) : str :=
  IndentUtil.spaces_to_indent iu (IndentUtil.indent_to_spaces iu x).

(** The flag a sequence of calls leaves, read off the calls alone: a
    reset clears it, a write sets it, any other call keeps it. *)
Definition changed_after (changed : bool) (ks : list SnippetUtil.call) : bool :=
  fold_left
    (fun b k =>
       if SnippetUtil.is_reset k then false
       else if SnippetUtil.is_write k then true else b)
    ks changed.

(** The object after [snip = SnippetUtil('', 'v', '', (0, 0), (0, 0))]
    under [demo_vim], and after a following [snip.shift(1)]. *)
Definition demo_snip : SnippetUtil.t :=
  SnippetUtil.mk (IndentUtil.mk 2 false 4) (mk_VisualContent (lit "v") [])
    [] [] [] false [] (0, 0) (0, 0).

Definition demo_snip_shifted : SnippetUtil.t :=
  SnippetUtil.set_indent (lit "  ") demo_snip.

(** The indent is made of whole shifts: spaces only, and a multiple of
    the shift width in length. *)
Definition indent_in_whole_shifts (self : SnippetUtil.t) : Prop :=
  only_spaces (SnippetUtil.indent self)
  /\ exists m,
       0 <= m
       /\ Py.len (SnippetUtil.indent self)
          = m * IndentUtil.shiftwidth (SnippetUtil._ind self).

(** * Properties *)

(** ** Python strings *)

Section PyFacts.

Lemma str_mul_char (c : ascii) (n : Z) :
  Py.str_mul [c] n = repeat c (Z.to_nat n).
Proof.
  unfold Py.str_mul. induction (Z.to_nat n) as [|k IH]; simpl; congruence.
Qed.

Lemma str_mul_repeat (c : ascii) (m : nat) (n : Z) :
  Py.str_mul (repeat c m) n = repeat c (m * Z.to_nat n).
Proof.
  unfold Py.str_mul. rewrite Nat.mul_comm.
  induction (Z.to_nat n) as [|k IH]; simpl; [reflexivity|].
  rewrite IH, repeat_app. reflexivity.
Qed.

Lemma len_repeat (c : ascii) (n : nat) : Py.len (repeat c n) = Z.of_nat n.
Proof. unfold Py.len. now rewrite repeat_length. Qed.

Lemma slice_to_nonpositive_start (s : str) (stop : Z) :
  stop < 0 -> Py.len s + stop <= 0 -> Py.slice_to s stop = [].
Proof.
  intros Hneg Hlen. unfold Py.slice_to.
  destruct (Z.ltb_spec stop 0); [|lia].
  rewrite Z.max_l by lia. reflexivity.
Qed.

Lemma slice_to_zero (s : str) : Py.slice_to s 0 = [].
Proof.
  unfold Py.slice_to. simpl (0 <? 0).
  rewrite Z.min_l by (unfold Py.len; lia). reflexivity.
Qed.

Lemma slice_to_drop_suffix (s t : str) :
  t <> [] -> Py.slice_to (s ++ t) (- Py.len t) = s.
Proof.
  intros Hne. unfold Py.slice_to, Py.len.
  assert (0 < List.length t)%nat by (destruct t; simpl; [congruence|lia]).
  destruct (Z.ltb_spec (- Z.of_nat (List.length t)) 0); [|lia].
  rewrite length_app, Z.max_r by lia.
  replace (Z.to_nat _) with (List.length s + 0)%nat by lia.
  rewrite firstn_app_2. simpl. apply app_nil_r.
Qed.

Lemma rstrip_all (c : ascii) (n : nat) : Py.rstrip (repeat c n) c = [].
Proof.
  unfold Py.rstrip. induction n as [|n IH]; simpl; [reflexivity|].
  rewrite IH, Ascii.eqb_refl. reflexivity.
Qed.

Lemma startswith_app (p rest : str) : Py.startswith (p ++ rest) p = true.
Proof.
  induction p as [|a p IH]; simpl; [reflexivity|].
  now rewrite Ascii.eqb_refl, IH.
Qed.

Lemma startswith_short (s p : str) :
  (List.length s < List.length p)%nat -> Py.startswith s p = false.
Proof.
  revert s. induction p as [|a p IH]; intros s Hlt; simpl in *; [lia|].
  destruct s as [|b s]; [reflexivity|]. simpl in Hlt.
  rewrite IH by lia. apply andb_false_r.
Qed.

Lemma replace_scan_skip (old new pre rest : str) :
  Py.replace_scan old new (List.length pre) (pre ++ rest)
  = Py.replace_scan old new 0 rest.
Proof. induction pre as [|a pre IH]; simpl; auto. Qed.

Lemma replace_scan_hit (old new rest : str) :
  old <> [] ->
  Py.replace_scan old new 0 (old ++ rest)
  = new ++ Py.replace_scan old new 0 rest.
Proof.
  intros Hne. destruct old as [|a old]; [congruence|].
  change ((a :: old) ++ rest) with (a :: (old ++ rest)).
  cbn [Py.replace_scan].
  change (a :: old ++ rest) with ((a :: old) ++ rest).
  rewrite startswith_app. cbn [List.length Nat.pred].
  now rewrite replace_scan_skip.
Qed.

Lemma replace_scan_short (c : ascii) (new : str) (t r : nat) :
  (r < t)%nat ->
  Py.replace_scan (repeat c t) new 0 (repeat c r) = repeat c r.
Proof.
  induction r as [|r IH]; intros Hlt; [reflexivity|].
  cbn [repeat Py.replace_scan].
  change (c :: repeat c r) with (repeat c (S r)).
  rewrite startswith_short by (rewrite !repeat_length; lia).
  cbn [repeat]. rewrite IH by lia. reflexivity.
Qed.

Lemma replace_nonempty (s old new : str) :
  old <> [] -> Py.replace s old new = Py.replace_scan old new 0 s.
Proof. destruct old; [congruence|reflexivity]. Qed.

(** Collapsing runs of [t] copies of [c]: the quotient in [new]s, the
    remainder left as it is. *)
Lemma replace_runs (c : ascii) (new : str) (t q r : nat) :
  (r < t)%nat ->
  Py.replace (repeat c (q * t + r)) (repeat c t) new
  = List.concat (repeat new q) ++ repeat c r.
Proof.
  intros Hlt.
  assert (Hne : repeat c t <> []) by (destruct t; [lia|discriminate]).
  rewrite replace_nonempty by assumption.
  induction q as [|q IH]; cbn [Nat.mul Nat.add repeat List.concat app].
  - now apply replace_scan_short.
  - rewrite <- Nat.add_assoc, repeat_app.
    rewrite replace_scan_hit by assumption.
    rewrite IH, app_assoc. reflexivity.
Qed.

Lemma replace_remove_all (c : ascii) (n : nat) :
  Py.replace (repeat c n) [c] [] = [].
Proof.
  unfold Py.replace. induction n as [|n IH]; [reflexivity|].
  cbn [repeat Py.replace_scan Py.startswith List.length Nat.pred].
  rewrite Ascii.eqb_refl. destruct (repeat c n); exact IH.
Qed.

End PyFacts.

(** ** IndentUtil: expansion and collapse *)

Section IndentFacts.

Variable tabwidth : Z.
Hypothesis tabwidth_pos : 1 <= tabwidth.

Lemma next_tab_stop (col : Z) :
  0 <= col ->
  (col / tabwidth + 1) * tabwidth = col + (tabwidth - col mod tabwidth)
  /\ 0 < tabwidth - col mod tabwidth.
Proof.
  intros Hcol.
  pose proof (Z.div_mod col tabwidth ltac:(lia)) as Hdm.
  pose proof (Z.mod_pos_bound col tabwidth ltac:(lia)) as Hb.
  split; nia.
Qed.

Lemma visual_width_from_ge (s : str) :
  forall col, 0 <= col -> col <= visual_width_from tabwidth col s.
Proof.
  induction s as [|c s IH]; intros col Hcol; cbn [visual_width_from]; [lia|].
  destruct (Ascii.eqb c TAB).
  - destruct (next_tab_stop col Hcol) as [E Hpos].
    rewrite E. etransitivity; [|apply IH]; lia.
  - etransitivity; [|apply IH]; lia.
Qed.

Lemma visual_width_from_app (s1 s2 : str) (col : Z) :
  visual_width_from tabwidth col (s1 ++ s2)
  = visual_width_from tabwidth (visual_width_from tabwidth col s1) s2.
Proof. revert col. induction s1 as [|c s1 IH]; intros col; simpl; auto. Qed.

Lemma visual_width_from_spaces (n : nat) (col : Z) :
  visual_width_from tabwidth col (repeat SP n) = col + Z.of_nat n.
Proof.
  revert col. induction n as [|n IH]; intros col; cbn [repeat visual_width_from].
  - lia.
  - change (Ascii.eqb SP TAB) with false. cbv iota. rewrite IH. lia.
Qed.

Lemma visual_width_from_tabs (q : nat) (j : Z) :
  0 <= j ->
  visual_width_from tabwidth (j * tabwidth) (repeat TAB q)
  = (j + Z.of_nat q) * tabwidth.
Proof.
  revert j. induction q as [|q IH]; intros j Hj; cbn [repeat visual_width_from].
  - f_equal. lia.
  - change (Ascii.eqb TAB TAB) with true. cbv iota.
    rewrite Z.div_mul by lia. rewrite IH by lia. f_equal. lia.
Qed.

(** [expandtabs] on indentation: spaces up to the visual width. *)
Lemma expandtabs_from_indent (s : str) :
  only_spaces_and_tabs s ->
  forall col, 0 <= col ->
  Py.expandtabs_from tabwidth col s
  = repeat SP (Z.to_nat (visual_width_from tabwidth col s - col)).
Proof.
  induction 1 as [|c s Hc _ IH]; intros col Hcol;
    cbn [Py.expandtabs_from visual_width_from].
  - now replace (col - col) with 0 by lia.
  - destruct Hc as [-> | ->].
    + change (Ascii.eqb SP TAB) with false.
      change (Ascii.eqb SP NL || Ascii.eqb SP CR) with false. cbv iota.
      rewrite IH by lia.
      pose proof (visual_width_from_ge s (col + 1) ltac:(lia)).
      change (SP :: ?l) with (repeat SP 1 ++ l). rewrite <- repeat_app.
      f_equal. lia.
    + change (Ascii.eqb TAB TAB) with true. cbv iota.
      destruct (Z.ltb_spec 0 tabwidth); [|lia].
      destruct (next_tab_stop col Hcol) as [E Hpos]. rewrite E.
      rewrite IH by lia.
      pose proof (visual_width_from_ge s
                    (col + (tabwidth - col mod tabwidth)) ltac:(lia)).
      rewrite <- repeat_app. f_equal. lia.
Qed.

End IndentFacts.

Lemma indent_to_spaces_indent (iu : IndentUtil.t) (indent : str) :
  1 <= IndentUtil._tabstop iu ->
  only_spaces_and_tabs indent ->
  IndentUtil.indent_to_spaces iu indent
  = repeat SP (Z.to_nat (visual_width (IndentUtil._tabstop iu) indent)).
Proof.
  intros Hts Hws. unfold IndentUtil.indent_to_spaces, Py.expandtabs.
  rewrite (expandtabs_from_indent _ Hts _ Hws 0) by lia.
  rewrite rstrip_all, replace_remove_all, len_repeat.
  cbn [Py.replace Py.replace_scan app]. rewrite str_mul_char.
  unfold visual_width, Py.len. cbn [List.length]. f_equal. lia.
Qed.

Lemma only_spaces_repeat (n : nat) : only_spaces (repeat SP n).
Proof. induction n; constructor; auto. Qed.

Lemma only_spaces_and_tabs_app (s1 s2 : str) :
  only_spaces_and_tabs s1 -> only_spaces_and_tabs s2 ->
  only_spaces_and_tabs (s1 ++ s2).
Proof. intros; now apply Forall_app. Qed.

Lemma only_spaces_and_tabs_repeat (c : ascii) (n : nat) :
  c = SP \/ c = TAB -> only_spaces_and_tabs (repeat c n).
Proof. intros Hc. induction n; constructor; auto. Qed.

(** C6: on indentation (spaces and tabs only) and with [tabstop >= 1],
    [indent_to_spaces] returns spaces only, as many as the visual width
    of its argument, a tab advancing to the next multiple of [tabstop];
    with [tabstop = 4] a single tab gives four spaces. *)
Theorem indent_to_spaces_visual_width :
  forall (iu : IndentUtil.t) (indent : str),
    1 <= IndentUtil._tabstop iu ->
    only_spaces_and_tabs indent ->
    only_spaces (IndentUtil.indent_to_spaces iu indent)
    /\ Py.len (IndentUtil.indent_to_spaces iu indent)
       = visual_width (IndentUtil._tabstop iu) indent
    /\ (IndentUtil._tabstop iu = 4 ->
        IndentUtil.indent_to_spaces iu [TAB] = lit "    ").
Proof.
  intros iu indent Hts Hws.
  rewrite (indent_to_spaces_indent iu indent Hts Hws).
  split; [apply only_spaces_repeat|]. split.
  - rewrite len_repeat.
    pose proof (visual_width_from_ge _ Hts indent 0 ltac:(lia)).
    unfold visual_width. lia.
  - intros E. rewrite indent_to_spaces_indent; auto.
    + rewrite E. reflexivity.
    + constructor; auto.
Qed.

Lemma indent_to_spaces_visual_width_witness :
  only_spaces
    (IndentUtil.indent_to_spaces (IndentUtil.mk 2 false 4) [SP; TAB; TAB; SP])
  /\ Py.len
       (IndentUtil.indent_to_spaces (IndentUtil.mk 2 false 4) [SP; TAB; TAB; SP])
     = 9
  /\ IndentUtil.indent_to_spaces (IndentUtil.mk 2 false 4) [TAB] = lit "    ".
Proof.
  destruct (indent_to_spaces_visual_width
              (IndentUtil.mk 2 false 4) [SP; TAB; TAB; SP]) as (H1 & H2 & H3).
  - simpl. lia.
  - repeat (apply Forall_cons; [auto|]). apply Forall_nil.
  - split; [exact H1|]. split; [exact H2|]. apply H3. reflexivity.
Defined.

Lemma indent_to_spaces_spaces (iu : IndentUtil.t) (k : nat) :
  1 <= IndentUtil._tabstop iu ->
  IndentUtil.indent_to_spaces iu (repeat SP k) = repeat SP k.
Proof.
  intros Hts. rewrite indent_to_spaces_indent; auto.
  - unfold visual_width. rewrite visual_width_from_spaces. f_equal. lia.
  - apply only_spaces_and_tabs_repeat; auto.
Qed.

(** Collapsing [k] spaces gives [k / tabstop] tabs and the remaining
    spaces. *)
Lemma spaces_to_indent_spaces (iu : IndentUtil.t) (q r : nat) :
  1 <= IndentUtil._tabstop iu ->
  IndentUtil._expandtab iu = false ->
  (r < Z.to_nat (IndentUtil._tabstop iu))%nat ->
  IndentUtil.spaces_to_indent iu
    (repeat SP (q * Z.to_nat (IndentUtil._tabstop iu) + r))
  = repeat TAB q ++ repeat SP r.
Proof.
  intros Hts Het Hr. unfold IndentUtil.spaces_to_indent.
  rewrite Het. cbn [negb]. rewrite str_mul_char.
  rewrite replace_runs by assumption. f_equal.
  clear. induction q; simpl; congruence.
Qed.

(** Expanding what the collapse made of [k] spaces gives the [k] spaces
    back. *)
Lemma expand_collapse_spaces (iu : IndentUtil.t) (k : nat) :
  1 <= IndentUtil._tabstop iu ->
  IndentUtil.indent_to_spaces iu (IndentUtil.spaces_to_indent iu (repeat SP k))
  = repeat SP k.
Proof.
  intros Hts. destruct (IndentUtil._expandtab iu) eqn:Het.
  - unfold IndentUtil.spaces_to_indent. rewrite Het. cbn [negb].
    now apply indent_to_spaces_spaces.
  - set (t := Z.to_nat (IndentUtil._tabstop iu)).
    assert (Ht : (0 < t)%nat) by (subst t; lia).
    pose proof (Nat.div_mod_eq k t) as Hk.
    pose proof (Nat.mod_upper_bound k t ltac:(lia)) as Hr.
    rewrite Hk at 1. rewrite (Nat.mul_comm t).
    subst t. rewrite spaces_to_indent_spaces by assumption.
    rewrite indent_to_spaces_indent; auto.
    + f_equal. unfold visual_width.
      rewrite visual_width_from_app.
      rewrite (visual_width_from_tabs _ Hts _ 0) by lia.
      rewrite visual_width_from_spaces. lia.
    + apply only_spaces_and_tabs_app;
        apply only_spaces_and_tabs_repeat; auto.
Qed.

(** C7: with [tabstop >= 1], whatever the shift width and the expand-tabs
    flag, the indent [ntabs_to_proper_indent] makes for [n >= 0] levels is
    left as it is by the normalization (expand, then collapse). *)
Theorem ntabs_to_proper_indent_fixed_point :
  forall (iu : IndentUtil.t) (n : Z),
    0 <= n ->
    1 <= IndentUtil._tabstop iu ->
    normalize iu (IndentUtil.ntabs_to_proper_indent iu n)
    = IndentUtil.ntabs_to_proper_indent iu n.
Proof.
  intros iu n _ Hts. unfold normalize, IndentUtil.ntabs_to_proper_indent.
  rewrite str_mul_char, indent_to_spaces_spaces by assumption.
  now rewrite expand_collapse_spaces.
Qed.

Lemma ntabs_to_proper_indent_fixed_point_witness :
  normalize (IndentUtil.mk 3 false 4)
    (IndentUtil.ntabs_to_proper_indent (IndentUtil.mk 3 false 4) 2)
  = IndentUtil.ntabs_to_proper_indent (IndentUtil.mk 3 false 4) 2
  /\ IndentUtil.ntabs_to_proper_indent (IndentUtil.mk 3 false 4) 2
     = [TAB; SP; SP].
Proof.
  split.
  - apply (ntabs_to_proper_indent_fixed_point (IndentUtil.mk 3 false 4) 2).
    + lia.
    + simpl. lia.
  - reflexivity.
Defined.

(** ** SnippetUtil: the indent *)

Section IndentOps.

Import SnippetUtil.

Lemma set_indent_same (self : t) : set_indent (indent self) self = self.
Proof. now destruct self. Qed.

Lemma indent_set_indent (self : t) (s : str) : indent (set_indent s self) = s.
Proof. reflexivity. Qed.

(** The [except IndexError] arm is never taken: a slice does not raise. *)
Lemma unshift_eq (self : t) (amount : Z) :
  unshift self amount
  = Ok (set_indent
          (Py.slice_to (indent self)
             (- IndentUtil.shiftwidth (_ind self) * amount)) self).
Proof. reflexivity. Qed.

Lemma shift_indent (self : t) (amount : Z) :
  indent (shift self amount)
  = indent self
    ++ repeat SP (Z.to_nat (IndentUtil.shiftwidth (_ind self))
                  * Z.to_nat amount).
Proof.
  unfold shift. cbn [indent set_indent].
  now rewrite str_mul_char, str_mul_repeat.
Qed.

(** Where the removal is of at least one character, [unshift] undoes
    [shift]. *)
Lemma unshift_shift (self : t) (amount : Z) :
  0 < amount ->
  0 < IndentUtil.shiftwidth (_ind self) ->
  unshift (shift self amount) amount = Ok self.
Proof.
  intros Ha Hsw. rewrite unshift_eq. f_equal.
  rewrite shift_indent.
  set (n := (Z.to_nat (IndentUtil.shiftwidth (_ind self))
             * Z.to_nat amount)%nat).
  assert (Hn : Z.of_nat n = IndentUtil.shiftwidth (_ind self) * amount)
    by (subst n; nia).
  replace (- IndentUtil.shiftwidth (_ind (shift self amount)) * amount)
    with (- Py.len (repeat SP n)).
  - rewrite slice_to_drop_suffix.
    + unfold shift. destruct self; reflexivity.
    + destruct n; [nia|discriminate].
  - rewrite len_repeat. cbn [shift set_indent _ind]. lia.
Qed.

(** C5: when the indent is shorter than [amount * shiftwidth], with
    [amount >= 1], [unshift(amount)] returns normally and leaves the empty
    indent. *)
Theorem unshift_underflow_clamps :
  forall (self : t) (amount : Z),
    1 <= amount ->
    Py.len (indent self) < amount * IndentUtil.shiftwidth (_ind self) ->
    exists self',
      unshift self amount = Ok self'
      /\ indent self' = []
      /\ self' = set_indent [] self.
Proof.
  intros self amount Ha Hlen. rewrite unshift_eq.
  rewrite slice_to_nonpositive_start by (unfold Py.len in *; lia).
  eexists; repeat split.
Qed.

Lemma unshift_underflow_clamps_witness :
  exists self',
    unshift demo_snip_shifted 2 = Ok self' /\ indent self' = []
    /\ self' = set_indent [] demo_snip_shifted.
Proof.
  apply (unshift_underflow_clamps demo_snip_shifted 2).
  - lia.
  - vm_compute. reflexivity.
Defined.

(** C10: when [amount * shiftwidth] is zero, [unshift(amount)] leaves the
    empty indent, whatever the indent was; an indent that was not empty is
    therefore not kept. *)
Theorem unshift_by_nothing_erases :
  forall (self : t) (amount : Z),
    amount * IndentUtil.shiftwidth (_ind self) = 0 ->
    exists self',
      unshift self amount = Ok self'
      /\ indent self' = []
      /\ (indent self <> [] -> indent self' <> indent self).
Proof.
  intros self amount Hzero. rewrite unshift_eq.
  replace (- IndentUtil.shiftwidth (_ind self) * amount) with 0 by lia.
  rewrite slice_to_zero. eexists. split; [reflexivity|]. split.
  - reflexivity.
  - cbn [indent set_indent]. congruence.
Qed.

Lemma unshift_by_nothing_erases_witness :
  indent demo_snip_shifted = lit "  "
  /\ exists self',
       unshift demo_snip_shifted 0 = Ok self'
       /\ indent self' = []
       /\ (indent demo_snip_shifted <> [] ->
           indent self' <> indent demo_snip_shifted).
Proof.
  split; [reflexivity|].
  apply (unshift_by_nothing_erases demo_snip_shifted 0). reflexivity.
Defined.

End IndentOps.

(** ** SnippetUtil: construction and the update cycle *)

Section Cycle.

Import SnippetUtil.

Lemma demo_vim_settings : IndentUtil.reset demo_vim = Ok (IndentUtil.mk 2 false 4).
Proof. reflexivity. Qed.

Lemma demo_snip_constructed :
  __init__ demo_vim [] (lit "v") [] (0, 0) (0, 0) = Ok demo_snip.
Proof. reflexivity. Qed.

Lemma demo_snip_shifted_run : run [Shift 1] demo_snip = Ok demo_snip_shifted.
Proof. reflexivity. Qed.

Lemma _reset_eq (vim : Vim.t) (ind : IndentUtil.t) (self : t) (cur : str) :
  IndentUtil.reset vim = Ok ind ->
  _reset vim self cur
  = Ok (mk ind (_visual self) (_initial_indent self) cur [] false
          (_initial_indent self) (_start self) (_end self)).
Proof. intros H. unfold _reset. rewrite H. reflexivity. Qed.

Lemma _reset_inv (vim : Vim.t) (self self' : t) (cur : str) :
  _reset vim self cur = Ok self' ->
  exists ind,
    IndentUtil.reset vim = Ok ind
    /\ self' = mk ind (_visual self) (_initial_indent self) cur [] false
                 (_initial_indent self) (_start self) (_end self).
Proof.
  unfold _reset. destruct (IndentUtil.reset vim) as [ind|e]; cbn [bind].
  - intros [= <-]. now exists ind.
  - discriminate.
Qed.

Lemma __init___eq (vim : Vim.t) (ind : IndentUtil.t)
  (initial vmode vtext : str) (start end_ : Z * Z) :
  IndentUtil.reset vim = Ok ind ->
  __init__ vim initial vmode vtext start end_
  = Ok (mk ind (mk_VisualContent (lit "v") vtext) [] [] [] false []
          start end_).
Proof.
  intros H. unfold __init__, IndentUtil.__init__. rewrite H. cbn [bind].
  rewrite (_reset_eq _ _ _ _ H). reflexivity.
Qed.

(** Only the host can make a property read or [opt] fail; a failed call
    leaves no object to go on with. *)
Lemma get_inv (vim : Vim.t) (prop : property) (self self' : t) :
  get vim prop self = Ok self' -> self' = self.
Proof.
  destruct prop; cbn [get];
    try (intros [= <-]; reflexivity);
    match goal with
    | |- bind ?m _ = _ -> _ => destruct m; cbn [bind]
    end; intros [= <-] || discriminate; reflexivity.
Qed.

Lemma step_opt_inv (vim : Vim.t) (o : str) (d : Py.pyval) (self self' : t) :
  step (Opt vim o d) self = Ok self' -> self' = self.
Proof.
  cbn [step]. destruct (opt vim self o d); cbn [bind];
    intros [= <-] || discriminate; reflexivity.
Qed.

(** No call assigns [_initial_indent] or [_visual]. *)
Lemma step_keeps_snapshots (k : call) (self self' : t) :
  step k self = Ok self' ->
  _initial_indent self' = _initial_indent self /\ _visual self' = _visual self.
Proof.
  destruct k; cbn [step __lshift__ __rshift__]; try rewrite unshift_eq;
    try (intros [= <-]; split; reflexivity).
  - intros H. apply _reset_inv in H as (ind & _ & ->). split; reflexivity.
  - intros H. apply get_inv in H as ->. split; reflexivity.
  - intros H. apply step_opt_inv in H as ->. split; reflexivity.
Qed.

Lemma run_keeps_snapshots (ks : list call) :
  forall self self',
    run ks self = Ok self' ->
    _initial_indent self' = _initial_indent self /\ _visual self' = _visual self.
Proof.
  induction ks as [|k ks IH]; intros self self'; cbn [run].
  - intros [= <-]. split; reflexivity.
  - destruct (step k self) as [s1|e] eqn:Hk; cbn [bind]; [|discriminate].
    intros H. apply IH in H as [H1 H2].
    apply step_keeps_snapshots in Hk as [H3 H4]. split; congruence.
Qed.

(** A call that is neither a reset nor touches the host returns. *)
Lemma step_returns (k : call) (self : t) :
  match k with
  | Reset _ _ | Get _ _ | Opt _ _ _ => True
  | _ => exists self', step k self = Ok self'
  end.
Proof. destruct k; cbn [step]; try exact I; eexists; reflexivity. Qed.

Lemma step_changed (k : call) (self self' : t) :
  step k self = Ok self' ->
  _changed self' = changed_after (_changed self) [k].
Proof.
  unfold changed_after.
  destruct k; cbn [step __lshift__ __rshift__ fold_left is_reset is_write];
    try rewrite unshift_eq;
    try (intros [= <-]; reflexivity).
  - intros H. apply _reset_inv in H as (ind & _ & ->). reflexivity.
  - intros H. apply get_inv in H as ->. reflexivity.
  - intros H. apply step_opt_inv in H as ->. reflexivity.
Qed.

Lemma run_changed (ks : list call) :
  forall self self',
    run ks self = Ok self' ->
    _changed self' = changed_after (_changed self) ks.
Proof.
  induction ks as [|k ks IH]; intros self self'; cbn [run].
  - intros [= <-]. reflexivity.
  - destruct (step k self) as [s1|e] eqn:Hk; cbn [bind]; [|discriminate].
    intros H. apply IH in H. apply step_changed in Hk.
    rewrite H, Hk. reflexivity.
Qed.

Lemma written_since_reset_cons (k : call) (ks : list call) :
  written_since_reset (k :: ks)
  <-> written_since_reset ks
      \/ (is_write k = true /\ Forall (fun k' => is_reset k' = false) ks).
Proof.
  unfold written_since_reset. split.
  - intros (before & w & after & E & Hw & Hnr).
    destruct before as [|b before]; cbn [app] in E; injection E as -> ->.
    + right. split; assumption.
    + left. now exists before, w, after.
  - intros [(before & w & after & -> & Hw & Hnr) | [Hw Hnr]].
    + now exists (k :: before), w, after.
    + now exists [], k, ks.
Qed.

Lemma changed_after_spec (ks : list call) :
  forall b,
    changed_after b ks = true
    <-> written_since_reset ks
        \/ (b = true /\ Forall (fun k => is_reset k = false) ks).
Proof.
  induction ks as [|k ks IH]; intros b.
  - cbn. split.
    + intros ->. right. split; [reflexivity|constructor].
    + intros [(before & w & after & E & _) | [-> _]]; [|reflexivity].
      destruct before; discriminate.
  - change (changed_after b (k :: ks))
      with (changed_after
              (if is_reset k then false
               else if is_write k then true else b) ks).
    rewrite IH, written_since_reset_cons.
    destruct (is_reset k) eqn:Hr; [|destruct (is_write k) eqn:Hw].
    + split.
      * intros [H | [[=] _]]. left. now left.
      * intros [[H | [Hw _]] | [_ Hnr]].
        -- now left.
        -- destruct k; discriminate.
        -- inversion Hnr; congruence.
    + split.
      * intros [H | [_ Hnr]]; left; [now left|right; now split].
      * intros [[H | [_ Hnr]] | [_ Hnr]].
        -- now left.
        -- right. now split.
        -- right. split; [reflexivity|]. now inversion Hnr.
    + split.
      * intros [H | [-> Hnr]]; [left; now left|].
        right. split; [reflexivity|]. now constructor.
      * intros [[H | [[=] _]] | [-> Hnr]]; [now left|].
        right. split; [reflexivity|]. now inversion Hnr.
Qed.

End Cycle.

(** ** SnippetUtil: what the snippet's code observes *)

Section Observations.

Import SnippetUtil.

(** C3: the flag [_rv_changed] is true exactly when the output was written
    since the last reset.  Right after [_reset] it is false; assigning
    [rv] or appending with [+] sets it, also when the value assigned is
    the one already there; no other call changes it; and after any
    sequence of calls it is true iff some write has no reset after it. *)
Theorem changed_iff_written_since_reset :
  forall (vim : Vim.t) (cur : str) (self fresh : t) (ks : list call) (self' : t),
    _reset vim self cur = Ok fresh ->
    run ks fresh = Ok self' ->
    _rv_changed fresh = false
    /\ (_rv_changed self' = true <-> written_since_reset ks)
    /\ (forall value, _rv_changed (rv_setter self' value) = true)
    /\ _rv_changed (rv_setter self' (rv self')) = true
    /\ (forall value, _rv_changed (__add__ self' value) = true)
    /\ (forall k s s',
          is_write k = false -> is_reset k = false ->
          step k s = Ok s' -> _rv_changed s' = _rv_changed s).
Proof.
  intros vim cur self fresh ks self' Hreset Hrun.
  apply _reset_inv in Hreset as (ind & _ & ->).
  split; [reflexivity|]. split; [|repeat split].
  - unfold _rv_changed. rewrite (run_changed _ _ _ Hrun).
    rewrite changed_after_spec. cbn [_changed]. split.
    + intros [H | [[=] _]]. exact H.
    + intros H. now left.
  - intros k s s' Hw Hr Hstep. unfold _rv_changed.
    rewrite (step_changed _ _ _ Hstep). unfold changed_after.
    cbn [fold_left]. now rewrite Hw, Hr.
Qed.

Lemma changed_iff_written_since_reset_witness :
  exists fresh self',
    _reset demo_vim demo_snip_shifted [] = Ok fresh
    /\ run [Shift 1; SetRv []; Unshift 1; Mkline (lit "x") []] fresh = Ok self'
    /\ _rv_changed fresh = false
    /\ _rv_changed self' = true
    /\ rv self' = rv fresh.
Proof.
  eexists. eexists.
  split; [reflexivity|]. split; [reflexivity|].
  destruct (changed_iff_written_since_reset demo_vim [] demo_snip_shifted
              _ [Shift 1; SetRv []; Unshift 1; Mkline (lit "x") []] _
              eq_refl eq_refl) as (H0 & Hiff & _).
  split; [exact H0|]. split; [|reflexivity].
  apply Hiff. exists [Shift 1], (SetRv []), [Unshift 1; Mkline (lit "x") []].
  split; [reflexivity|]. split; [reflexivity|].
  repeat constructor.
Defined.

(** C2, as the code has it: the constructor does not keep the prefix it
    is given.  [_initial_indent] is the empty string whatever is passed,
    no call assigns it, and construction, [reset_indent] and [_reset]
    each leave [indent] equal to it, that is, empty. *)
Theorem initial_indent_is_empty :
  forall (vim : Vim.t) (ind : IndentUtil.t) (initial vmode vtext : str)
         (start end_ : Z * Z),
    IndentUtil.reset vim = Ok ind ->
    exists self,
      __init__ vim initial vmode vtext start end_ = Ok self
      /\ _initial_indent self = []
      /\ indent self = []
      /\ forall ks self',
           run ks self = Ok self' ->
           _initial_indent self' = []
           /\ indent (reset_indent self') = _initial_indent self'
           /\ forall vim' cur self'',
                _reset vim' self' cur = Ok self'' ->
                indent self'' = [].
Proof.
  intros vim ind initial vmode vtext start end_ Hind.
  eexists. split; [apply (__init___eq _ _ _ _ _ _ _ Hind)|].
  split; [reflexivity|]. split; [reflexivity|].
  intros ks self' Hrun.
  apply run_keeps_snapshots in Hrun as [Hi _]. cbn [_initial_indent] in Hi.
  split; [exact Hi|]. split; [reflexivity|].
  intros vim' cur self'' Hreset.
  apply _reset_inv in Hreset as (ind' & _ & ->). exact Hi.
Qed.

Lemma initial_indent_is_empty_witness :
  exists self,
    __init__ demo_vim (lit "    ") (lit "v") [] (1, 0) (1, 4) = Ok self
    /\ _initial_indent self = []
    /\ indent self = []
    /\ forall ks self',
         run ks self = Ok self' ->
         _initial_indent self' = []
         /\ indent (reset_indent self') = _initial_indent self'
         /\ forall vim' cur self'',
              _reset vim' self' cur = Ok self'' ->
              indent self'' = [].
Proof.
  apply (initial_indent_is_empty demo_vim (IndentUtil.mk 2 false 4)).
  reflexivity.
Defined.

(** C2 as stated fails: constructed with four spaces, the object has an
    empty indent, and [reset_indent] keeps it empty. *)
Lemma initial_indent_not_kept :
  exists self,
    __init__ demo_vim (lit "    ") (lit "v") [] (1, 0) (1, 4) = Ok self
    /\ indent self <> lit "    "
    /\ indent (reset_indent self) <> lit "    ".
Proof.
  eexists. split; [reflexivity|]. split; discriminate.
Qed.

(** C8, as the code has it: [v] gives the text passed to the constructor,
    and the mode ['v'] whatever mode was passed; no call changes it. *)
Theorem visual_text_kept_mode_fixed :
  forall (vim : Vim.t) (ind : IndentUtil.t) (initial vmode vtext : str)
         (start end_ : Z * Z),
    IndentUtil.reset vim = Ok ind ->
    exists self,
      __init__ vim initial vmode vtext start end_ = Ok self
      /\ mode (v self) = lit "v"
      /\ text (v self) = vtext
      /\ forall ks self', run ks self = Ok self' -> v self' = v self.
Proof.
  intros vim ind initial vmode vtext start end_ Hind.
  eexists. split; [apply (__init___eq _ _ _ _ _ _ _ Hind)|].
  split; [reflexivity|]. split; [reflexivity|].
  intros ks self' Hrun. now apply run_keeps_snapshots in Hrun as [_ Hv].
Qed.

Lemma visual_text_kept_mode_fixed_witness :
  exists self,
    __init__ demo_vim [] (lit "V") (lit "sel") (1, 0) (1, 4) = Ok self
    /\ mode (v self) = lit "v"
    /\ text (v self) = lit "sel"
    /\ forall ks self', run ks self = Ok self' -> v self' = v self.
Proof.
  apply (visual_text_kept_mode_fixed demo_vim (IndentUtil.mk 2 false 4)).
  reflexivity.
Defined.

(** C8 as stated fails: constructed with the linewise mode ['V'], the
    object reports the mode ['v']. *)
Lemma visual_mode_not_kept :
  exists self,
    __init__ demo_vim [] (lit "V") (lit "sel") (1, 0) (1, 4) = Ok self
    /\ mode (v self) <> lit "V".
Proof.
  eexists. split; [reflexivity|]. discriminate.
Qed.

(** C1, the code at the scenario of the claim: with [shiftwidth=2] and an
    empty initial indent, after [shift(1)] the indent is two spaces, and
    [mkline('x')] is ['x']: the default of [indent] is the empty string,
    not the current indent. *)
Theorem mkline_default_is_not_current_indent :
  exists self0 self1,
    __init__ demo_vim [] (lit "v") [] (0, 0) (0, 0) = Ok self0
    /\ run [Shift shift_default_amount] self0 = Ok self1
    /\ indent self1 = lit "  "
    /\ mkline self1 (lit "x") mkline_default_indent = lit "x"
    /\ mkline self1 (lit "x") mkline_default_indent
       <> indent self1 ++ lit "x".
Proof.
  exists demo_snip, demo_snip_shifted.
  repeat split; discriminate.
Qed.

(** C4, the code at [amount = 0]: with [shiftwidth=2] and an indent of two
    spaces, [shift(0)] keeps the indent and [unshift(0)] then empties it,
    so the pair does not restore it.  (For [amount >= 1] and
    [shiftwidth >= 1] it does: [unshift_shift].) *)
Theorem shift_unshift_zero_loses_indent :
  exists self1 self2,
    run [Shift 0] demo_snip_shifted = Ok self1
    /\ indent self1 = indent demo_snip_shifted
    /\ indent demo_snip_shifted = lit "  "
    /\ Py.len (indent self1) >= 0 * IndentUtil.shiftwidth (_ind self1)
    /\ run [Unshift 0] self1 = Ok self2
    /\ indent self2 = []
    /\ indent self2 <> indent demo_snip_shifted.
Proof.
  eexists. eexists. split; [reflexivity|].
  repeat split; discriminate.
Qed.

End Observations.

(** ** SnippetUtil: host variables *)

Section HostLookup.

Import SnippetUtil.

Lemma eval_raises_only_vim_error (vim : Vim.t) (expr : str) (e : exn) :
  Vim.eval vim expr = Raise e -> e = VimError.
Proof. unfold Vim.eval. destruct (Vim.answer vim expr); congruence. Qed.

(** The existence check is made outside the [try]: when it fails, the
    error reaches the caller. *)
Lemma opt_check_fails (vim : Vim.t) (self : t) (option : str)
  (default : Py.pyval) :
  Vim.eval vim (lit "exists('" ++ option ++ lit "')") = Raise VimError ->
  opt vim self option default = Raise VimError.
Proof. intros H. unfold opt. rewrite H. reflexivity. Qed.

(** C9, as the code has it: when the host evaluates the existence check,
    [opt] returns.  It returns the value of the variable when the check
    says ['1'] and the variable evaluates, and the default when the check
    says anything else or evaluating the variable raises [vim.error]. *)
Theorem opt_value_or_default :
  forall (vim : Vim.t) (self : t) (option : str) (default check : Py.pyval),
    Vim.eval vim (lit "exists('" ++ option ++ lit "')") = Ok check ->
    (exists r, opt vim self option default = Ok r)
    /\ (forall val,
          Py.eq_str check (lit "1") = true ->
          Vim.eval vim option = Ok val ->
          opt vim self option default = Ok val)
    /\ (forall e,
          Py.eq_str check (lit "1") = true ->
          Vim.eval vim option = Raise e ->
          opt vim self option default = Ok default)
    /\ (Py.eq_str check (lit "1") = false ->
        opt vim self option default = Ok default).
Proof.
  intros vim self option default check Hcheck.
  unfold opt. rewrite Hcheck. cbn [bind].
  destruct (Py.eq_str check (lit "1")) eqn:Hone.
  - destruct (Vim.eval vim option) as [val|e] eqn:Hval.
    + cbn [try_except]. split; [now exists val|].
      split; [congruence|]. split; [discriminate|discriminate].
    + apply eval_raises_only_vim_error in Hval as Hv. subst e.
      cbn [try_except exn_eqb]. split; [now exists default|].
      split; [discriminate|]. split; [reflexivity|discriminate].
  - split; [now exists default|].
    split; [discriminate|]. split; [discriminate|reflexivity].
Qed.

Lemma opt_value_or_default_witness :
  opt demo_vim demo_snip (lit "g:undefined_var") (Py.PStr (lit "fallback"))
  = Ok (Py.PStr (lit "fallback"))
  /\ opt demo_vim demo_snip (lit "g:snips_author") (Py.PStr (lit "fallback"))
     = Ok (Py.PStr (lit "me")).
Proof.
  split.
  - apply (opt_value_or_default demo_vim demo_snip (lit "g:undefined_var")
             (Py.PStr (lit "fallback")) (Py.PStr (lit "0")));
      reflexivity.
  - apply (opt_value_or_default demo_vim demo_snip (lit "g:snips_author")
             (Py.PStr (lit "fallback")) (Py.PStr (lit "1")));
      reflexivity.
Defined.

(** C9 as stated fails: for a name with a quote in it Vim rejects the
    existence check, and [opt] raises instead of returning the default. *)
Lemma opt_propagates_check_error :
  Vim.eval demo_vim (lit "exists('" ++ lit "g:it's" ++ lit "')")
  = Raise VimError
  /\ opt demo_vim demo_snip (lit "g:it's") (Py.PStr (lit "fallback"))
     = Raise VimError
  /\ opt demo_vim demo_snip (lit "g:it's") (Py.PStr (lit "fallback"))
     <> Ok (Py.PStr (lit "fallback")).
Proof. repeat split; discriminate. Qed.

End HostLookup.

(** ** More on Python strings *)

Section PyMoreFacts.

Lemma str_mul_nonpositive (s : str) (n : Z) : n <= 0 -> Py.str_mul s n = [].
Proof.
  intros Hn. unfold Py.str_mul.
  replace (Z.to_nat n) with 0%nat by lia. reflexivity.
Qed.

(** Replacing a single character works character by character. *)
Lemma replace_char (s : str) (c : ascii) (new : str) :
  Py.replace s [c] new
  = flat_map (fun x => if Ascii.eqb c x then new else [x]) s.
Proof.
  unfold Py.replace. induction s as [|x s IH]; [reflexivity|].
  cbn [Py.replace_scan Py.startswith List.length Nat.pred flat_map].
  rewrite andb_true_r. destruct (Ascii.eqb c x); cbn [app]; now rewrite IH.
Qed.

Lemma replace_char_absent (s : str) (c : ascii) (new : str) :
  ~ In c s -> Py.replace s [c] new = s.
Proof.
  intros Hnot. rewrite replace_char.
  induction s as [|x s IH]; [reflexivity|]. cbn [flat_map].
  destruct (Ascii.eqb_spec c x) as [->|_].
  - exfalso. apply Hnot. now left.
  - cbn [app]. f_equal. apply IH. intros Hin. apply Hnot. now right.
Qed.

Lemma replace_char_keeps_absent (s : str) (c d : ascii) :
  ~ In d s -> ~ In d (Py.replace s [c] []).
Proof.
  intros Hnot. rewrite replace_char. rewrite in_flat_map.
  intros (x & Hx & Hd). destruct (Ascii.eqb c x); [exact Hd|].
  destruct Hd as [<-|[]]. exact (Hnot Hx).
Qed.

Lemma expandtabs_from_no_tab (tabsize : Z) (s : str) :
  forall col, ~ In TAB (Py.expandtabs_from tabsize col s).
Proof.
  induction s as [|c s IH]; intros col; cbn [Py.expandtabs_from]; [exact id|].
  destruct (Ascii.eqb_spec c TAB) as [->|Hc].
  - destruct (0 <? tabsize); [|apply IH].
    rewrite in_app_iff. intros [Hin|Hin]; [|exact (IH _ Hin)].
    apply repeat_spec in Hin. discriminate.
  - intros [E|Hin]; [exact (Hc E)|exact (IH _ Hin)].
Qed.

(** Without a positive tab size the tabs go and the rest stays. *)
Lemma expandtabs_from_drop_tabs (tabsize : Z) (s : str) :
  tabsize <= 0 ->
  only_spaces_and_tabs s ->
  forall col,
    Py.expandtabs_from tabsize col s = repeat SP (count_occ ascii_dec s SP).
Proof.
  intros Hts. induction 1 as [|c s Hc _ IH]; intros col; [reflexivity|].
  cbn [Py.expandtabs_from]. destruct Hc as [-> | ->].
  - change (Ascii.eqb SP TAB) with false. cbv iota.
    rewrite count_occ_cons_eq by reflexivity. cbn [repeat]. now rewrite IH.
  - change (Ascii.eqb TAB TAB) with true. cbv iota.
    destruct (Z.ltb_spec 0 tabsize); [lia|].
    rewrite count_occ_cons_neq by discriminate. apply IH.
Qed.

Lemma startswith_length (s prefix : str) :
  Py.startswith s prefix = true -> (List.length prefix <= List.length s)%nat.
Proof.
  revert s. induction prefix as [|a prefix IH]; intros s; cbn; [lia|].
  destruct s as [|b s]; [discriminate|]. cbn.
  intros H. apply andb_prop in H as [_ H]. apply IH in H. lia.
Qed.

(** A replacement no longer than what it replaces never lengthens. *)
Lemma replace_scan_length (old new : str) :
  (List.length new <= List.length old)%nat ->
  forall s skip,
    (List.length (Py.replace_scan old new skip s)
     + Nat.min skip (List.length s) <= List.length s)%nat.
Proof.
  intros Hnew. induction s as [|c s IH]; intros skip; [cbn; lia|].
  cbn [Py.replace_scan]. destruct skip as [|k].
  - destruct (Py.startswith (c :: s) old) eqn:Hhit.
    + apply startswith_length in Hhit. cbn [List.length] in Hhit.
      specialize (IH (Nat.pred (List.length old))).
      rewrite length_app. cbn [List.length]. lia.
    + specialize (IH 0%nat). cbn [List.length]. lia.
  - specialize (IH k). cbn [List.length]. lia.
Qed.

End PyMoreFacts.

(** ** More on IndentUtil *)

Section IndentMoreFacts.

Variable iu : IndentUtil.t.

Lemma only_spaces_is_repeat (s : str) :
  only_spaces s -> s = repeat SP (List.length s).
Proof. induction 1 as [|c s -> _ IH]; cbn; congruence. Qed.

Lemma indent_to_spaces_no_tab_aux (indent : str) :
  ~ In TAB (IndentUtil.indent_to_spaces iu indent).
Proof.
  unfold IndentUtil.indent_to_spaces, Py.expandtabs.
  set (e := Py.expandtabs_from (IndentUtil._tabstop iu) 0 indent).
  assert (He : ~ In TAB e) by apply expandtabs_from_no_tab.
  assert (Hr : ~ In TAB (Py.replace e [SP] []))
    by now apply replace_char_keeps_absent.
  rewrite (replace_char_absent _ TAB _ Hr), str_mul_char, in_app_iff.
  intros [Hin|Hin]; [exact (Hr Hin)|].
  apply repeat_spec in Hin. discriminate.
Qed.

Hypothesis tabstop_pos : 1 <= IndentUtil._tabstop iu.

Lemma tabstop_nat_pos : (0 < Z.to_nat (IndentUtil._tabstop iu))%nat.
Proof. lia. Qed.

Lemma spaces_to_indent_form (k : nat) :
  IndentUtil.spaces_to_indent iu (repeat SP k)
  = if IndentUtil._expandtab iu then repeat SP k
    else repeat TAB (k / Z.to_nat (IndentUtil._tabstop iu))
         ++ repeat SP (k mod Z.to_nat (IndentUtil._tabstop iu)).
Proof.
  destruct (IndentUtil._expandtab iu) eqn:Het.
  - unfold IndentUtil.spaces_to_indent. now rewrite Het.
  - pose proof tabstop_nat_pos as Ht.
    pose proof (Nat.div_mod_eq k (Z.to_nat (IndentUtil._tabstop iu))) as Hk.
    rewrite Hk at 1. rewrite (Nat.mul_comm (Z.to_nat _)).
    apply spaces_to_indent_spaces; auto.
    apply Nat.mod_upper_bound. lia.
Qed.

Lemma spaces_to_indent_is_indent (k : nat) :
  only_spaces_and_tabs (IndentUtil.spaces_to_indent iu (repeat SP k)).
Proof.
  rewrite spaces_to_indent_form. destruct (IndentUtil._expandtab iu).
  - apply only_spaces_and_tabs_repeat; auto.
  - apply only_spaces_and_tabs_app; apply only_spaces_and_tabs_repeat; auto.
Qed.

Lemma visual_width_collapse (k : nat) :
  visual_width (IndentUtil._tabstop iu)
    (IndentUtil.spaces_to_indent iu (repeat SP k))
  = Z.of_nat k.
Proof.
  pose proof (indent_to_spaces_indent iu _ tabstop_pos
                (spaces_to_indent_is_indent k)) as H.
  rewrite expand_collapse_spaces in H by assumption.
  apply (f_equal (@List.length ascii)) in H.
  rewrite !repeat_length in H.
  pose proof (visual_width_from_ge _ tabstop_pos
                (IndentUtil.spaces_to_indent iu (repeat SP k)) 0 ltac:(lia)).
  unfold visual_width in *. lia.
Qed.

Lemma normalize_form (x : str) :
  only_spaces_and_tabs x ->
  normalize iu x
  = IndentUtil.spaces_to_indent iu
      (repeat SP (Z.to_nat (visual_width (IndentUtil._tabstop iu) x))).
Proof.
  intros Hx. unfold normalize. now rewrite indent_to_spaces_indent.
Qed.

End IndentMoreFacts.

(** X1: for every input and every setting, what [indent_to_spaces]
    returns holds no tab. *)
Theorem indent_to_spaces_no_tab :
  forall (iu : IndentUtil.t) (indent : str),
    ~ In TAB (IndentUtil.indent_to_spaces iu indent).
Proof. exact indent_to_spaces_no_tab_aux. Qed.

Lemma indent_to_spaces_no_tab_witness :
  ~ In TAB (IndentUtil.indent_to_spaces (IndentUtil.mk 2 false 4)
              ([TAB] ++ lit "a b" ++ [TAB; SP]))
  /\ IndentUtil.indent_to_spaces (IndentUtil.mk 2 false 4)
       ([TAB] ++ lit "a b" ++ [TAB; SP])
     = lit "ab  ".
Proof.
  split; [|reflexivity].
  apply (indent_to_spaces_no_tab (IndentUtil.mk 2 false 4)).
Defined.

Lemma indent_to_spaces_drop_tabs :
  forall (iu : IndentUtil.t) (indent : str),
    IndentUtil._tabstop iu <= 0 ->
    only_spaces_and_tabs indent ->
    IndentUtil.indent_to_spaces iu indent
    = repeat SP (count_occ ascii_dec indent SP).
Proof.
  intros iu indent Hts Hws. unfold IndentUtil.indent_to_spaces, Py.expandtabs.
  rewrite (expandtabs_from_drop_tabs _ _ Hts Hws).
  rewrite rstrip_all, replace_remove_all, len_repeat.
  cbn [Py.replace Py.replace_scan app]. rewrite str_mul_char.
  unfold Py.len. cbn [List.length]. f_equal. lia.
Qed.

(** X2: with [tabstop <= 0] the tabs of an indentation count for
    nothing: [indent_to_spaces] returns as many spaces as its argument
    has spaces. *)
Theorem indent_to_spaces_nonpositive_tabstop :
  forall (iu : IndentUtil.t) (indent : str),
    IndentUtil._tabstop iu <= 0 ->
    only_spaces_and_tabs indent ->
    IndentUtil.indent_to_spaces iu indent
    = repeat SP (count_occ ascii_dec indent SP).
Proof. exact indent_to_spaces_drop_tabs. Qed.

Lemma indent_to_spaces_nonpositive_tabstop_witness :
  IndentUtil.indent_to_spaces (IndentUtil.mk 2 false 0) [TAB; SP; TAB; SP]
  = [SP; SP].
Proof.
  apply (indent_to_spaces_nonpositive_tabstop
           (IndentUtil.mk 2 false 0) [TAB; SP; TAB; SP]).
  - simpl. lia.
  - repeat (apply Forall_cons; [auto|]). apply Forall_nil.
Defined.

(** X3: with [tabstop >= 1], [ntabs_to_proper_indent(n)] is
    [max(0, n * shiftwidth)] columns wide: all spaces under [expandtab],
    otherwise as many tabs as fit followed by fewer than [tabstop]
    spaces. *)
Theorem ntabs_to_proper_indent_form :
  forall (iu : IndentUtil.t) (n : Z),
    1 <= IndentUtil._tabstop iu ->
    let width := Z.max 0 (n * IndentUtil.shiftwidth iu) in
    IndentUtil.ntabs_to_proper_indent iu n
    = (if IndentUtil._expandtab iu then repeat SP (Z.to_nat width)
       else repeat TAB (Z.to_nat (width / IndentUtil._tabstop iu))
            ++ repeat SP (Z.to_nat (width mod IndentUtil._tabstop iu)))
    /\ visual_width (IndentUtil._tabstop iu)
         (IndentUtil.ntabs_to_proper_indent iu n)
       = width.
Proof.
  intros iu n Hts width. unfold IndentUtil.ntabs_to_proper_indent.
  rewrite str_mul_char, indent_to_spaces_spaces by assumption.
  replace (Z.to_nat (n * IndentUtil.shiftwidth iu)) with (Z.to_nat width)
    by (subst width; lia).
  split.
  - destruct (IndentUtil._expandtab iu) eqn:Het.
    + unfold IndentUtil.spaces_to_indent. now rewrite Het.
    + pose proof (Z.div_mod width (IndentUtil._tabstop iu) ltac:(lia)) as Hdm.
      pose proof (Z.mod_pos_bound width (IndentUtil._tabstop iu) ltac:(lia)).
      assert (0 <= width / IndentUtil._tabstop iu)
        by (apply Z.div_pos; subst width; lia).
      replace (Z.to_nat width)
        with (Z.to_nat (width / IndentUtil._tabstop iu)
              * Z.to_nat (IndentUtil._tabstop iu)
              + Z.to_nat (width mod IndentUtil._tabstop iu))%nat by nia.
      apply spaces_to_indent_spaces; auto. lia.
  - rewrite visual_width_collapse by assumption. subst width. lia.
Qed.

Lemma ntabs_to_proper_indent_form_witness :
  IndentUtil.ntabs_to_proper_indent (IndentUtil.mk 3 false 4) 3
  = [TAB; TAB; SP]
  /\ visual_width 4 (IndentUtil.ntabs_to_proper_indent (IndentUtil.mk 3 false 4) 3)
     = 9.
Proof.
  apply (ntabs_to_proper_indent_form (IndentUtil.mk 3 false 4) 3).
  simpl. lia.
Defined.

(** X4: on indentation, with [tabstop >= 1], normalizing twice is
    normalizing once. *)
Theorem normalize_idempotent :
  forall (iu : IndentUtil.t) (x : str),
    1 <= IndentUtil._tabstop iu ->
    only_spaces_and_tabs x ->
    normalize iu (normalize iu x) = normalize iu x.
Proof.
  intros iu x Hts Hx. rewrite (normalize_form iu Hts x Hx).
  unfold normalize. now rewrite expand_collapse_spaces.
Qed.

Lemma normalize_idempotent_witness :
  normalize (IndentUtil.mk 2 false 4)
    (normalize (IndentUtil.mk 2 false 4) [SP; SP; TAB; SP; SP; SP; SP; SP])
  = normalize (IndentUtil.mk 2 false 4) [SP; SP; TAB; SP; SP; SP; SP; SP]
  /\ normalize (IndentUtil.mk 2 false 4) [SP; SP; TAB; SP; SP; SP; SP; SP]
     = [TAB; TAB; SP].
Proof.
  split; [|reflexivity].
  apply (normalize_idempotent (IndentUtil.mk 2 false 4)).
  - simpl. lia.
  - repeat (apply Forall_cons; [auto|]). apply Forall_nil.
Defined.

(** X5: on indentation, with [tabstop >= 1], normalizing keeps the
    visual width, whatever the expand-tabs flag. *)
Theorem normalize_keeps_visual_width :
  forall (iu : IndentUtil.t) (x : str),
    1 <= IndentUtil._tabstop iu ->
    only_spaces_and_tabs x ->
    visual_width (IndentUtil._tabstop iu) (normalize iu x)
    = visual_width (IndentUtil._tabstop iu) x.
Proof.
  intros iu x Hts Hx. rewrite (normalize_form iu Hts x Hx).
  rewrite visual_width_collapse by assumption.
  pose proof (visual_width_from_ge _ Hts x 0 ltac:(lia)).
  unfold visual_width in *. lia.
Qed.

Lemma normalize_keeps_visual_width_witness :
  visual_width 4 (normalize (IndentUtil.mk 2 false 4) [SP; SP; TAB; SP])
  = visual_width 4 [SP; SP; TAB; SP]
  /\ visual_width 4 [SP; SP; TAB; SP] = 5.
Proof.
  split; [|reflexivity].
  apply (normalize_keeps_visual_width (IndentUtil.mk 2 false 4)
           [SP; SP; TAB; SP]).
  - simpl. lia.
  - repeat (apply Forall_cons; [auto|]). apply Forall_nil.
Defined.

(** X6: without [expandtab] and with [tabstop >= 1], an indent made of
    tabs followed by fewer than [tabstop] spaces is what normalizing
    returns for it: expanding and collapsing is a round trip there. *)
Theorem normalize_fixes_tabs_then_spaces :
  forall (iu : IndentUtil.t) (tabs spaces : nat),
    1 <= IndentUtil._tabstop iu ->
    IndentUtil._expandtab iu = false ->
    Z.of_nat spaces < IndentUtil._tabstop iu ->
    normalize iu (repeat TAB tabs ++ repeat SP spaces)
    = repeat TAB tabs ++ repeat SP spaces.
Proof.
  intros iu tabs spaces Hts Het Hsp.
  rewrite normalize_form; auto.
  - unfold visual_width. rewrite visual_width_from_app.
    rewrite (visual_width_from_tabs _ Hts _ 0) by lia.
    rewrite visual_width_from_spaces.
    replace (Z.to_nat _)
      with (tabs * Z.to_nat (IndentUtil._tabstop iu) + spaces)%nat by nia.
    apply spaces_to_indent_spaces; auto. lia.
  - apply only_spaces_and_tabs_app; apply only_spaces_and_tabs_repeat; auto.
Qed.

Lemma normalize_fixes_tabs_then_spaces_witness :
  normalize (IndentUtil.mk 2 false 4) (repeat TAB 2 ++ repeat SP 2)
  = [TAB; TAB; SP; SP].
Proof.
  apply (normalize_fixes_tabs_then_spaces (IndentUtil.mk 2 false 4) 2 2).
  - simpl. lia.
  - reflexivity.
  - simpl. lia.
Defined.

(** X7: with [tabstop >= 1], collapsing a string of spaces and expanding
    the result gives the string back, whatever the expand-tabs flag. *)
Theorem indent_to_spaces_undoes_spaces_to_indent :
  forall (iu : IndentUtil.t) (indent : str),
    1 <= IndentUtil._tabstop iu ->
    only_spaces indent ->
    IndentUtil.indent_to_spaces iu (IndentUtil.spaces_to_indent iu indent)
    = indent.
Proof.
  intros iu indent Hts Hsp.
  rewrite (only_spaces_is_repeat indent Hsp).
  now apply expand_collapse_spaces.
Qed.

Lemma indent_to_spaces_undoes_spaces_to_indent_witness :
  IndentUtil.spaces_to_indent (IndentUtil.mk 2 false 4) (lit "      ")
  = [TAB; SP; SP]
  /\ IndentUtil.indent_to_spaces (IndentUtil.mk 2 false 4)
       (IndentUtil.spaces_to_indent (IndentUtil.mk 2 false 4) (lit "      "))
     = lit "      ".
Proof.
  split; [reflexivity|].
  apply (indent_to_spaces_undoes_spaces_to_indent (IndentUtil.mk 2 false 4)).
  - simpl. lia.
  - repeat (apply Forall_cons; [reflexivity|]). apply Forall_nil.
Defined.

(** X8: with [tabstop >= 1], [spaces_to_indent] never returns a longer
    string than it is given, whatever the string. *)
Theorem spaces_to_indent_never_longer :
  forall (iu : IndentUtil.t) (indent : str),
    1 <= IndentUtil._tabstop iu ->
    Py.len (IndentUtil.spaces_to_indent iu indent) <= Py.len indent.
Proof.
  intros iu indent Hts. unfold IndentUtil.spaces_to_indent.
  destruct (negb (IndentUtil._expandtab iu)); [|lia].
  rewrite str_mul_char, replace_nonempty.
  - pose proof (replace_scan_length
                  (repeat SP (Z.to_nat (IndentUtil._tabstop iu))) [TAB]) as H.
    rewrite repeat_length in H. cbn [List.length] in H.
    specialize (H ltac:(lia) indent 0%nat). unfold Py.len. lia.
  - destruct (Z.to_nat (IndentUtil._tabstop iu)) eqn:E; [lia|discriminate].
Qed.

Lemma spaces_to_indent_never_longer_witness :
  Py.len (IndentUtil.spaces_to_indent (IndentUtil.mk 2 false 4)
            (lit "    if x:    "))
  <= Py.len (lit "    if x:    ")
  /\ IndentUtil.spaces_to_indent (IndentUtil.mk 2 false 4) (lit "    if x:    ")
     = [TAB] ++ lit "if x:" ++ [TAB].
Proof.
  split; [|reflexivity].
  apply (spaces_to_indent_never_longer (IndentUtil.mk 2 false 4)).
  simpl. lia.
Defined.

(** X9: without [expandtab] and with [tabstop <= 0], [spaces_to_indent]
    puts a tab before every character and one at the end: the result is
    never empty and has [2 * len + 1] characters. *)
Theorem spaces_to_indent_nonpositive_tabstop :
  forall (iu : IndentUtil.t) (indent : str),
    IndentUtil._tabstop iu <= 0 ->
    IndentUtil._expandtab iu = false ->
    IndentUtil.spaces_to_indent iu indent
    = TAB :: flat_map (fun c => [c; TAB]) indent
    /\ Py.len (IndentUtil.spaces_to_indent iu indent) = 2 * Py.len indent + 1
    /\ IndentUtil.ntabs_to_proper_indent iu 0 = [TAB].
Proof.
  intros iu indent Hts Het.
  assert (E : forall s, IndentUtil.spaces_to_indent iu s
                        = TAB :: flat_map (fun c => [c; TAB]) s).
  { intros s. unfold IndentUtil.spaces_to_indent. rewrite Het. cbn [negb].
    now rewrite str_mul_nonpositive by assumption. }
  split; [apply E|]. split.
  - rewrite E. unfold Py.len. cbn [List.length].
    assert (L : List.length (flat_map (fun c => [c; TAB]) indent)
                = (2 * List.length indent)%nat)
      by (clear; induction indent as [|c s IH]; cbn in *; lia).
    lia.
  - unfold IndentUtil.ntabs_to_proper_indent. rewrite E.
    cbn [Z.mul]. rewrite (str_mul_nonpositive [SP] 0) by lia.
    rewrite indent_to_spaces_drop_tabs by (auto; constructor).
    reflexivity.
Qed.

Lemma spaces_to_indent_nonpositive_tabstop_witness :
  IndentUtil.spaces_to_indent (IndentUtil.mk 2 false 0) [SP; SP]
  = TAB :: flat_map (fun c => [c; TAB]) [SP; SP]
  /\ Py.len (IndentUtil.spaces_to_indent (IndentUtil.mk 2 false 0) [SP; SP])
     = 2 * Py.len [SP; SP] + 1
  /\ IndentUtil.ntabs_to_proper_indent (IndentUtil.mk 2 false 0) 0 = [TAB].
Proof.
  apply (spaces_to_indent_nonpositive_tabstop (IndentUtil.mk 2 false 0)).
  - simpl. lia.
  - reflexivity.
Defined.

(** ** More on the indent of SnippetUtil *)

Section IndentMoreOps.

Import SnippetUtil.

Lemma shift_eq (self : t) (amount : Z) :
  shift self amount
  = set_indent
      (indent self
       ++ repeat SP (Z.to_nat (IndentUtil.shiftwidth (_ind self))
                     * Z.to_nat amount))
      self.
Proof. unfold shift. now rewrite str_mul_char, str_mul_repeat. Qed.

Lemma shift_shift (self : t) (a b : Z) :
  0 <= a -> 0 <= b -> shift (shift self a) b = shift self (a + b).
Proof.
  intros Ha Hb.
  rewrite (shift_eq (shift self a) b), (shift_eq self (a + b)), (shift_eq self a).
  unfold set_indent.
  cbn [_ind _visual _initial_indent _cur _rv _changed indent _start _end].
  rewrite <- app_assoc, <- repeat_app.
  replace (Z.to_nat (a + b)) with (Z.to_nat a + Z.to_nat b)%nat by lia.
  now rewrite Nat.mul_add_distr_l.
Qed.

Lemma unshift_length_eq (self : t) (amount : Z) :
  let removal := amount * IndentUtil.shiftwidth (_ind self) in
  Py.len (Py.slice_to (indent self)
            (- IndentUtil.shiftwidth (_ind self) * amount))
  = if 0 <? removal then Z.max 0 (Py.len (indent self) - removal)
    else Z.min (- removal) (Py.len (indent self)).
Proof.
  intros removal. unfold Py.slice_to, Py.len. rewrite length_firstn.
  subst removal.
  destruct (Z.ltb_spec (- IndentUtil.shiftwidth (_ind self) * amount) 0);
    destruct (Z.ltb_spec 0 (amount * IndentUtil.shiftwidth (_ind self)));
    lia.
Qed.

Lemma Forall_firstn_keep {A} (P : A -> Prop) (n : nat) (l : list A) :
  Forall P l -> Forall P (firstn n l).
Proof.
  intros H. rewrite <- (firstn_skipn n l) in H.
  now apply Forall_app in H as [H _].
Qed.

End IndentMoreOps.

(** X10: [shift(amount)] changes the indent only, appending
    [max(0, shiftwidth) * max(0, amount)] spaces to it; with a
    non-positive amount or shift width it changes nothing. *)
Theorem shift_appends_spaces :
  forall (self : SnippetUtil.t) (amount : Z),
    let sw := IndentUtil.shiftwidth (SnippetUtil._ind self) in
    (exists n,
       SnippetUtil.shift self amount
       = SnippetUtil.set_indent (SnippetUtil.indent self ++ repeat SP n) self
       /\ Z.of_nat n = Z.max 0 sw * Z.max 0 amount)
    /\ (amount <= 0 \/ sw <= 0 -> SnippetUtil.shift self amount = self).
Proof.
  intros self amount sw. rewrite shift_eq. fold sw. split.
  - eexists. split; [reflexivity|]. nia.
  - intros H. replace (Z.to_nat sw * Z.to_nat amount)%nat with 0%nat by nia.
    cbn [repeat]. rewrite app_nil_r. apply set_indent_same.
Qed.

Lemma shift_appends_spaces_witness :
  (exists n,
     SnippetUtil.shift demo_snip_shifted (-1)
     = SnippetUtil.set_indent
         (SnippetUtil.indent demo_snip_shifted ++ repeat SP n)
         demo_snip_shifted
     /\ Z.of_nat n = Z.max 0 2 * Z.max 0 (-1))
  /\ SnippetUtil.shift demo_snip_shifted (-1) = demo_snip_shifted.
Proof.
  destruct (shift_appends_spaces demo_snip_shifted (-1)) as [H1 H2].
  split; [exact H1|]. apply H2. left. lia.
Defined.

(** X11: two shifts by non-negative amounts are one shift by their sum. *)
Theorem shift_amounts_add :
  forall (self : SnippetUtil.t) (a b : Z),
    0 <= a -> 0 <= b ->
    SnippetUtil.run [SnippetUtil.Shift a; SnippetUtil.Rshift b] self
    = SnippetUtil.run [SnippetUtil.Shift (a + b)] self.
Proof.
  intros self a b Ha Hb.
  cbn [SnippetUtil.run SnippetUtil.step SnippetUtil.__rshift__ bind].
  now rewrite shift_shift.
Qed.

Lemma shift_amounts_add_witness :
  SnippetUtil.run [SnippetUtil.Shift 1; SnippetUtil.Rshift 2] demo_snip
  = SnippetUtil.run [SnippetUtil.Shift (1 + 2)] demo_snip
  /\ (exists self,
        SnippetUtil.run [SnippetUtil.Shift (1 + 2)] demo_snip = Ok self
        /\ SnippetUtil.indent self = lit "      ").
Proof.
  split.
  - apply (shift_amounts_add demo_snip 1 2); lia.
  - eexists. split; reflexivity.
Defined.

(** X12: with [shiftwidth >= 1], [unshift(b)] for [b >= 1] takes back
    the last [b] levels of a shift: after [shift(a + b)], with [a >= 0],
    it leaves the object as [shift(a)] makes it; for [a = 0] that is the
    object before the shift. *)
Theorem unshift_takes_back_shift :
  forall (self : SnippetUtil.t) (a b : Z),
    0 <= a -> 1 <= b ->
    1 <= IndentUtil.shiftwidth (SnippetUtil._ind self) ->
    SnippetUtil.unshift (SnippetUtil.shift self (a + b)) b
    = Ok (SnippetUtil.shift self a)
    /\ SnippetUtil.unshift (SnippetUtil.shift self b) b = Ok self.
Proof.
  intros self a b Ha Hb Hsw. split.
  - rewrite <- shift_shift by lia.
    apply unshift_shift; [lia|]. rewrite shift_eq. cbn. lia.
  - apply unshift_shift; lia.
Qed.

Lemma unshift_takes_back_shift_witness :
  SnippetUtil.unshift (SnippetUtil.shift demo_snip_shifted (1 + 2)) 2
  = Ok (SnippetUtil.shift demo_snip_shifted 1)
  /\ SnippetUtil.unshift (SnippetUtil.shift demo_snip_shifted 2) 2
     = Ok demo_snip_shifted.
Proof.
  apply (unshift_takes_back_shift demo_snip_shifted 1 2).
  - lia.
  - lia.
  - simpl. lia.
Defined.

(** X13: [unshift] always returns; it changes the indent only, and the
    indent it leaves is a prefix of the one it found, with
    [max(0, len - r)] characters when the removal [r = amount *
    shiftwidth] is positive and [min(-r, len)] characters otherwise. *)
Theorem unshift_leaves_prefix :
  forall (self : SnippetUtil.t) (amount : Z),
    let removal := amount * IndentUtil.shiftwidth (SnippetUtil._ind self) in
    exists self' rest,
      SnippetUtil.unshift self amount = Ok self'
      /\ self' = SnippetUtil.set_indent (SnippetUtil.indent self') self
      /\ SnippetUtil.indent self = SnippetUtil.indent self' ++ rest
      /\ Py.len (SnippetUtil.indent self')
         = if 0 <? removal
           then Z.max 0 (Py.len (SnippetUtil.indent self) - removal)
           else Z.min (- removal) (Py.len (SnippetUtil.indent self)).
Proof.
  intros self amount removal. rewrite unshift_eq.
  eexists. eexists. split; [reflexivity|].
  cbn [SnippetUtil.indent SnippetUtil.set_indent].
  split; [reflexivity|]. split.
  - unfold Py.slice_to. symmetry. apply firstn_skipn.
  - apply unshift_length_eq.
Qed.

(** ** More on the update cycle *)

Section CycleMore.

Import SnippetUtil.

Lemma step_keeps_bounds (k : call) (self self' : t) :
  step k self = Ok self' ->
  _start self' = _start self /\ _end self' = _end self.
Proof.
  destruct k; cbn [step __lshift__ __rshift__]; try rewrite unshift_eq;
    try (intros [= <-]; split; reflexivity).
  - intros H. apply _reset_inv in H as (ind & _ & ->). split; reflexivity.
  - intros H. apply get_inv in H as ->. split; reflexivity.
  - intros H. apply step_opt_inv in H as ->. split; reflexivity.
Qed.

Lemma run_keeps_bounds (ks : list call) :
  forall self self',
    run ks self = Ok self' ->
    _start self' = _start self /\ _end self' = _end self.
Proof.
  induction ks as [|k ks IH]; intros self self'; cbn [run].
  - intros [= <-]. split; reflexivity.
  - destruct (step k self) as [s1|e] eqn:Hk; cbn [bind]; [|discriminate].
    intros H. apply IH in H as [H1 H2].
    apply step_keeps_bounds in Hk as [H3 H4]. split; congruence.
Qed.

Lemma whole_shifts_empty (self : t) :
  indent self = [] -> indent_in_whole_shifts self.
Proof.
  intros E. unfold indent_in_whole_shifts. rewrite E. split; [constructor|].
  exists 0. split; [lia|]. reflexivity.
Qed.

Lemma whole_shifts_shift (self : t) (amount : Z) :
  indent_in_whole_shifts self -> indent_in_whole_shifts (shift self amount).
Proof.
  intros [Hsp (m & Hm & Hlen)]. rewrite shift_eq.
  unfold indent_in_whole_shifts. cbn [indent set_indent _ind]. split.
  - apply Forall_app. split; [exact Hsp|apply only_spaces_repeat].
  - unfold Py.len in *. rewrite length_app, repeat_length.
    destruct (Z.le_gt_cases (IndentUtil.shiftwidth (_ind self)) 0).
    + exists m. split; [lia|]. nia.
    + exists (m + Z.max 0 amount). split; [lia|]. nia.
Qed.

Lemma whole_shifts_unshift (self self' : t) (amount : Z) :
  indent_in_whole_shifts self ->
  unshift self amount = Ok self' ->
  indent_in_whole_shifts self'.
Proof.
  intros [Hsp (m & Hm & Hlen)]. rewrite unshift_eq. intros [= <-].
  unfold indent_in_whole_shifts. cbn [indent set_indent _ind]. split.
  - unfold Py.slice_to. now apply Forall_firstn_keep.
  - rewrite unshift_length_eq. rewrite Hlen.
    set (sw := IndentUtil.shiftwidth (_ind self)) in *.
    assert (Hnn : 0 <= m * sw) by (rewrite <- Hlen; unfold Py.len; lia).
    destruct (Z.ltb_spec 0 (amount * sw)).
    + destruct (Z.lt_trichotomy sw 0) as [Hneg|[Hz|Hpos]].
      * exists 0. split; [lia|]. nia.
      * exists 0. split; [lia|]. nia.
      * exists (Z.max 0 (m - amount)). split; [lia|]. nia.
    + destruct (Z.lt_trichotomy sw 0) as [Hneg|[Hz|Hpos]].
      * exists 0. split; [lia|]. nia.
      * exists 0. split; [lia|]. nia.
      * exists (Z.min (- amount) m). split; [nia|]. nia.
Qed.

Lemma step_keeps_whole_shifts (k : call) (self self' : t) :
  _initial_indent self = [] ->
  indent_in_whole_shifts self ->
  step k self = Ok self' ->
  indent_in_whole_shifts self'.
Proof.
  intros Hi Hinv.
  destruct k; cbn [step __lshift__ __rshift__];
    try (intros [= <-]; exact Hinv).
  - intros H. apply _reset_inv in H as (ind & _ & ->).
    apply whole_shifts_empty. exact Hi.
  - intros [= <-]. now apply whole_shifts_shift.
  - now apply whole_shifts_unshift.
  - intros [= <-]. apply whole_shifts_empty. exact Hi.
  - intros H. apply get_inv in H as ->. exact Hinv.
  - intros H. apply step_opt_inv in H as ->. exact Hinv.
  - now apply whole_shifts_unshift.
  - intros [= <-]. now apply whole_shifts_shift.
Qed.

Lemma run_keeps_whole_shifts (ks : list call) :
  forall self self',
    _initial_indent self = [] ->
    indent_in_whole_shifts self ->
    run ks self = Ok self' ->
    indent_in_whole_shifts self'.
Proof.
  induction ks as [|k ks IH]; intros self self' Hi Hinv; cbn [run].
  - intros [= <-]. exact Hinv.
  - destruct (step k self) as [s1|e] eqn:Hk; cbn [bind]; [|discriminate].
    apply IH.
    + apply step_keeps_snapshots in Hk as [H _]. congruence.
    + exact (step_keeps_whole_shifts _ _ _ Hi Hinv Hk).
Qed.

Lemma add_effect (self : t) (value : str) :
  __add__ self value
  = set__rv (_rv self ++ NL :: value) (set__changed true self).
Proof.
  unfold __add__, rv_setter, rv, mkline, mkline_default_indent.
  destruct self. cbn. now rewrite <- app_assoc.
Qed.

End CycleMore.

(** X14: from construction on, whatever calls are made (resets with
    other settings included), the indent is made of spaces only and its
    length is a whole multiple of the current shift width. *)
Theorem indent_stays_in_whole_shifts :
  forall (vim : Vim.t) (ind : IndentUtil.t) (initial vmode vtext : str)
         (start end_ : Z * Z),
    IndentUtil.reset vim = Ok ind ->
    exists self,
      SnippetUtil.__init__ vim initial vmode vtext start end_ = Ok self
      /\ forall ks self',
           SnippetUtil.run ks self = Ok self' ->
           indent_in_whole_shifts self'.
Proof.
  intros vim ind initial vmode vtext start end_ Hind.
  eexists. split; [apply (__init___eq _ _ _ _ _ _ _ Hind)|].
  intros ks self'. apply run_keeps_whole_shifts; [reflexivity|].
  now apply whole_shifts_empty.
Qed.

Lemma indent_stays_in_whole_shifts_witness :
  exists self,
    SnippetUtil.__init__ demo_vim (lit "   ") (lit "v") [] (0, 0) (0, 0)
    = Ok self
    /\ forall ks self',
         SnippetUtil.run ks self = Ok self' ->
         indent_in_whole_shifts self'.
Proof.
  apply (indent_stays_in_whole_shifts demo_vim (IndentUtil.mk 2 false 4)).
  reflexivity.
Defined.

(** X15: a reset forgets the cycle before it: after any calls, [_reset]
    gives what it gives without them.  (It keeps the visual selection,
    the initial indent and the bounds, and no call changes those.) *)
Theorem reset_forgets_cycle :
  forall (ks : list SnippetUtil.call) (self self' : SnippetUtil.t)
         (vim : Vim.t) (cur : str),
    SnippetUtil.run ks self = Ok self' ->
    SnippetUtil._reset vim self' cur = SnippetUtil._reset vim self cur.
Proof.
  intros ks self self' vim cur Hrun.
  pose proof (run_keeps_snapshots _ _ _ Hrun) as [Hi Hv].
  pose proof (run_keeps_bounds _ _ _ Hrun) as [Hs He].
  unfold SnippetUtil._reset.
  destruct (IndentUtil.reset vim) as [ind|e]; cbn [bind]; [|reflexivity].
  unfold SnippetUtil.reset_indent, SnippetUtil.set_indent,
    SnippetUtil.set__changed, SnippetUtil.set__rv, SnippetUtil.set__cur,
    SnippetUtil.set__ind.
  cbn [SnippetUtil._ind SnippetUtil._visual SnippetUtil._initial_indent
       SnippetUtil._cur SnippetUtil._rv SnippetUtil._changed
       SnippetUtil.indent SnippetUtil._start SnippetUtil._end].
  congruence.
Qed.

Lemma reset_forgets_cycle_witness :
  SnippetUtil._reset demo_vim
    (SnippetUtil.__add__ (SnippetUtil.shift demo_snip 3) (lit "x")) []
  = SnippetUtil._reset demo_vim demo_snip []
  /\ SnippetUtil._reset demo_vim demo_snip [] = Ok demo_snip.
Proof.
  split; [|reflexivity].
  apply (reset_forgets_cycle
           [SnippetUtil.Shift 3; SnippetUtil.Add (lit "x")] demo_snip).
  reflexivity.
Defined.

(** X16: appending lines with [+] one after the other adds to [rv], for
    each line, a newline and the line as it is; the indent is neither
    used nor changed, and [rv] counts as changed once a line was
    appended. *)
Theorem add_accumulates_lines :
  forall (lines : list str) (self : SnippetUtil.t),
    exists self',
      SnippetUtil.run (map SnippetUtil.Add lines) self = Ok self'
      /\ SnippetUtil.rv self'
         = SnippetUtil.rv self ++ flat_map (fun line => NL :: line) lines
      /\ SnippetUtil.indent self' = SnippetUtil.indent self
      /\ (lines <> [] -> SnippetUtil._rv_changed self' = true).
Proof.
  induction lines as [|line lines IH]; intros self.
  - exists self. cbn. rewrite app_nil_r. repeat split. congruence.
  - cbn [map SnippetUtil.run SnippetUtil.step bind].
    destruct (IH (SnippetUtil.__add__ self line))
      as (self' & Hrun & Hrv & Hind & Hch).
    exists self'. split; [exact Hrun|]. rewrite add_effect in *.
    unfold SnippetUtil.rv in *.
    cbn [SnippetUtil._rv SnippetUtil.set__rv SnippetUtil.set__changed
         SnippetUtil.indent flat_map] in *.
    split; [now rewrite Hrv, <- app_assoc|]. split; [exact Hind|].
    intros _. unfold SnippetUtil._rv_changed.
    rewrite (run_changed _ _ _ Hrun).
    cbn [SnippetUtil._changed SnippetUtil.set__rv SnippetUtil.set__changed].
    clear. unfold changed_after.
    induction lines as [|l lines IH]; [reflexivity|exact IH].
Qed.

Lemma add_accumulates_lines_witness :
  exists self',
    SnippetUtil.run (map SnippetUtil.Add [lit "a"; lit "b"]) demo_snip_shifted
    = Ok self'
    /\ SnippetUtil.rv self' = [NL] ++ lit "a" ++ [NL] ++ lit "b"
    /\ SnippetUtil.indent self' = lit "  "
    /\ SnippetUtil._rv_changed self' = true.
Proof.
  destruct (add_accumulates_lines [lit "a"; lit "b"] demo_snip_shifted)
    as (self' & Hrun & Hrv & Hind & Hch).
  exists self'. split; [exact Hrun|]. split; [exact Hrv|].
  split; [exact Hind|]. apply Hch. discriminate.
Defined.

(** X17: the indent that [shift(n)] makes from an empty indent, for
    [n >= 0], normalizes to [ntabs_to_proper_indent(n)]. *)
Theorem shifted_indent_normalizes_to_ntabs :
  forall (self : SnippetUtil.t) (n : Z),
    SnippetUtil.indent self = [] ->
    0 <= n ->
    normalize (SnippetUtil._ind self)
      (SnippetUtil.indent (SnippetUtil.shift self n))
    = IndentUtil.ntabs_to_proper_indent (SnippetUtil._ind self) n.
Proof.
  intros self n Hempty Hn. rewrite shift_eq.
  cbn [SnippetUtil.indent SnippetUtil.set_indent]. rewrite Hempty.
  unfold IndentUtil.ntabs_to_proper_indent, normalize.
  rewrite str_mul_char. cbn [app]. do 3 f_equal. nia.
Qed.

Lemma shifted_indent_normalizes_to_ntabs_witness :
  normalize (SnippetUtil._ind demo_snip)
    (SnippetUtil.indent (SnippetUtil.shift demo_snip 3))
  = IndentUtil.ntabs_to_proper_indent (SnippetUtil._ind demo_snip) 3
  /\ IndentUtil.ntabs_to_proper_indent (SnippetUtil._ind demo_snip) 3
     = [TAB; SP; SP].
Proof.
  split; [|reflexivity].
  apply (shifted_indent_normalizes_to_ntabs demo_snip 3).
  - reflexivity.
  - lia.
Defined.

(** X18: within a cycle the flag goes one way: once [rv] counts as
    changed, it still does after any calls among which there is no
    reset. *)
Theorem changed_is_one_way :
  forall (ks : list SnippetUtil.call) (self self' : SnippetUtil.t),
    SnippetUtil._rv_changed self = true ->
    Forall (fun k => SnippetUtil.is_reset k = false) ks ->
    SnippetUtil.run ks self = Ok self' ->
    SnippetUtil._rv_changed self' = true.
Proof.
  intros ks self self' Hch Hnr Hrun. unfold SnippetUtil._rv_changed in *.
  rewrite (run_changed _ _ _ Hrun). apply changed_after_spec.
  right. now split.
Qed.

Lemma changed_is_one_way_witness :
  SnippetUtil._rv_changed
    (SnippetUtil.shift (SnippetUtil.rv_setter demo_snip (lit "x")) 1)
  = true.
Proof.
  apply (changed_is_one_way [SnippetUtil.Shift 1]
           (SnippetUtil.rv_setter demo_snip (lit "x"))).
  - reflexivity.
  - repeat constructor.
  - reflexivity.
Defined.

(** X19: [fn] and [basename] fail only when the host rejects the
    expression, and what they return is never an empty or zero value
    other than the empty string: the host's empty answers come back as
    ['']. *)
Theorem fn_basename_never_falsy :
  forall (vim : Vim.t) (self : SnippetUtil.t),
    (forall r, SnippetUtil.fn vim self = Ok r ->
               r = Py.PStr [] \/ Py.truthy r = true)
    /\ (forall r, SnippetUtil.basename vim self = Ok r ->
                  r = Py.PStr [] \/ Py.truthy r = true)
    /\ (forall e, SnippetUtil.fn vim self = Raise e -> e = VimError)
    /\ (forall e, SnippetUtil.basename vim self = Raise e -> e = VimError).
Proof.
  intros vim self. unfold SnippetUtil.fn, SnippetUtil.basename.
  repeat split; intros x;
    match goal with
    | |- bind (Vim.eval ?v ?expr) _ = _ -> _ =>
        destruct (Vim.eval v expr) as [a|e'] eqn:Heval; cbn [bind]
    end;
    try discriminate.
  - intros [= <-]. unfold Py.or_. destruct (Py.truthy a) eqn:Ht; auto.
  - intros [= <-]. unfold Py.or_. destruct (Py.truthy a) eqn:Ht; auto.
  - intros [= <-]. now apply eval_raises_only_vim_error in Heval.
  - intros [= <-]. now apply eval_raises_only_vim_error in Heval.
Qed.

Lemma fn_basename_never_falsy_witness :
  SnippetUtil.fn (Vim.mk (fun _ => Some (Py.PStr [])) Py.PNone) demo_snip
  = Ok (Py.PStr [])
  /\ (Py.PStr [] = Py.PStr [] \/ Py.truthy (Py.PStr []) = true).
Proof.
  split; [reflexivity|].
  apply (fn_basename_never_falsy
           (Vim.mk (fun _ => Some (Py.PStr [])) Py.PNone) demo_snip).
  reflexivity.
Defined.

(** ** [indent_to_spaces] applied twice *)

Section ExpandTwice.

Lemma expandtabs_from_tab_free (tabsize : Z) (s : str) :
  ~ In TAB s -> forall col, Py.expandtabs_from tabsize col s = s.
Proof.
  induction s as [|c s IH]; intros Hnot col; [reflexivity|].
  cbn [Py.expandtabs_from].
  destruct (Ascii.eqb_spec c TAB) as [->|_].
  - exfalso. apply Hnot. now left.
  - f_equal. apply IH. intros Hin. apply Hnot. now right.
Qed.

Lemma rstrip_app_spaces (body : str) (k : nat) :
  ~ In SP body -> Py.rstrip (body ++ repeat SP k) SP = body.
Proof.
  unfold Py.rstrip. induction body as [|c body IH]; intros Hnot.
  - apply rstrip_all.
  - cbn [app fold_right]. rewrite IH by (intros Hin; apply Hnot; now right).
    destruct body as [|d body]; [|reflexivity].
    destruct (Ascii.eqb_spec c SP) as [->|_]; [|reflexivity].
    exfalso. apply Hnot. now left.
Qed.

Lemma replace_spaces_gone (s : str) : ~ In SP (Py.replace s [SP] []).
Proof.
  rewrite replace_char, in_flat_map. intros (x & _ & Hin).
  destruct (Ascii.eqb_spec SP x) as [->|Hx]; [exact Hin|].
  destruct Hin as [E|[]]. congruence.
Qed.

Lemma replace_app_char (s1 s2 : str) (c : ascii) (new : str) :
  Py.replace (s1 ++ s2) [c] new
  = Py.replace s1 [c] new ++ Py.replace s2 [c] new.
Proof. rewrite !replace_char. apply flat_map_app. Qed.

(** What [indent_to_spaces] returns: a body without spaces and tabs,
    then spaces. *)
Lemma indent_to_spaces_shape (iu : IndentUtil.t) (indent : str) :
  exists body k,
    IndentUtil.indent_to_spaces iu indent = body ++ repeat SP k
    /\ ~ In SP body /\ ~ In TAB body.
Proof.
  unfold IndentUtil.indent_to_spaces, Py.expandtabs.
  set (e := Py.expandtabs_from (IndentUtil._tabstop iu) 0 indent).
  assert (Hr : ~ In TAB (Py.replace e [SP] []))
    by (apply replace_char_keeps_absent, expandtabs_from_no_tab).
  rewrite (replace_char_absent _ TAB _ Hr), str_mul_char.
  eexists. eexists. split; [reflexivity|].
  split; [apply replace_spaces_gone|exact Hr].
Qed.

Lemma indent_to_spaces_on_shape (iu : IndentUtil.t) (body : str) (k : nat) :
  ~ In SP body -> ~ In TAB body ->
  IndentUtil.indent_to_spaces iu (body ++ repeat SP k) = body ++ repeat SP k.
Proof.
  intros Hsp Htab.
  assert (Hfree : ~ In TAB (body ++ repeat SP k)).
  { rewrite in_app_iff. intros [H|H]; [exact (Htab H)|].
    apply repeat_spec in H. discriminate. }
  unfold IndentUtil.indent_to_spaces, Py.expandtabs.
  rewrite (expandtabs_from_tab_free _ _ Hfree).
  rewrite (rstrip_app_spaces _ _ Hsp), replace_app_char.
  rewrite replace_remove_all, app_nil_r.
  rewrite (replace_char_absent body SP [] Hsp).
  rewrite (replace_char_absent body TAB _ Htab), str_mul_char.
  f_equal. f_equal. unfold Py.len. rewrite length_app, repeat_length. lia.
Qed.

End ExpandTwice.

(** X20: for every string and every setting, applying
    [indent_to_spaces] to its own result changes nothing. *)
Theorem indent_to_spaces_idempotent :
  forall (iu : IndentUtil.t) (indent : str),
    IndentUtil.indent_to_spaces iu (IndentUtil.indent_to_spaces iu indent)
    = IndentUtil.indent_to_spaces iu indent.
Proof.
  intros iu indent.
  destruct (indent_to_spaces_shape iu indent) as (body & k & -> & Hsp & Htab).
  now apply indent_to_spaces_on_shape.
Qed.

(** ** Worked examples *)

Example expandtabs_demo :
  Py.expandtabs (lit "a" ++ [TAB] ++ lit "b") 4 = lit "a   b".
Proof. reflexivity. Qed.

Example replace_demo :
  Py.replace (lit "aaaaa") (lit "aa") (lit "b") = lit "bba"
  /\ Py.replace (lit "ab") [] (lit "-") = lit "-a-b-".
Proof. split; reflexivity. Qed.

Example int_demo :
  Py.int (Py.PStr (lit " -1_0 ")) = Ok (-10)
  /\ Py.int (Py.PStr (lit "8")) = Ok 8
  /\ Py.int (Py.PStr (lit "1__0")) = Raise ValueError
  /\ Py.int (Py.PStr []) = Raise ValueError.
Proof. repeat split. Qed.

Example spaces_to_indent_demo :
  IndentUtil.spaces_to_indent (IndentUtil.mk 2 false 4) (lit "    ") = [TAB]
  /\ normalize (IndentUtil.mk 2 false 4) [TAB; TAB; SP; SP]
     = [TAB; TAB; SP; SP].
Proof. split; reflexivity. Qed.

Example add_demo :
  SnippetUtil.rv (SnippetUtil.__add__ demo_snip_shifted (lit "x"))
  = [NL] ++ lit "x".
Proof. reflexivity. Qed.
